(** * Kaos_AugmentRequirements: tag matching and the augment lifecycle

    A shallow embedding of [Kaos_AugmentRequirements.js] (RPG Maker MV
    plugin).  JavaScript strings are modelled as [string] over 7-bit
    ASCII characters (note tags are made of word characters); arrays are
    lists, read with [!!] and written with [<[_:=_]>]; abrupt completions
    ([TypeError], [SyntaxError]) are explicit. *)

From Stdlib Require Import Ascii String DecimalString DecimalNat.
From stdpp Require Import base option list gmap strings.

Local Open Scope string_scope.

(** ** Completions *)

Inductive exn : Type :=
  | TypeError      (* property access on null / undefined *)
  | SyntaxError    (* new RegExp on an ill-formed source *)
  | Unsupported.   (* regular-expression syntax this development does not interpret *)

Inductive completion (A : Type) : Type :=
  | Ret (a : A)
  | Throw (e : exn).
Arguments Ret {A} a.
Arguments Throw {A} e.

(** The values [Kaos.Augment.hasTag] can return: a boolean or an index. *)
Inductive jsval : Type :=
  | JBool (b : bool)
  | JNum (n : nat).

(** ToBoolean on those values: [0] and [false] are falsy. *)
Definition truthy (v : jsval) : bool :=
  match v with
  | JBool b => b
  | JNum 0 => false
  | JNum (S _) => true
  end.

(** ** String primitives *)

Module Str.

Definition is_lower (c : ascii) : bool :=
  let n := nat_of_ascii c in Nat.leb 97 n && Nat.leb n 122.

Definition is_upper (c : ascii) : bool :=
  let n := nat_of_ascii c in Nat.leb 65 n && Nat.leb n 90.

Definition is_digit (c : ascii) : bool :=
  let n := nat_of_ascii c in Nat.leb 48 n && Nat.leb n 57.

(** The class [\w]: letters, digits and the underscore. *)
Definition is_word (c : ascii) : bool :=
  is_lower c || is_upper c || is_digit c || Ascii.eqb c "_".

Definition upper_char (c : ascii) : ascii :=
  if is_lower c then ascii_of_nat (nat_of_ascii c - 32) else c.

(** [s.toUpperCase()] *)
Fixpoint toUpperCase (s : string) : string :=
  match s with
  | EmptyString => EmptyString
  | String c s' => String (upper_char c) (toUpperCase s')
  end.

(** [s.indexOf("*") >= 0] *)
Fixpoint has_star (s : string) : bool :=
  match s with
  | EmptyString => false
  | String c s' => Ascii.eqb c "*" || has_star s'
  end.

(** [s.charAt(0) == "*"] *)
Definition first_is_star (s : string) : bool :=
  match s with
  | String c _ => Ascii.eqb c "*"
  | EmptyString => false
  end.

(** [s.charAt(s.length-1) == "*"] *)
Fixpoint last_is_star (s : string) : bool :=
  match s with
  | EmptyString => false
  | String c EmptyString => Ascii.eqb c "*"
  | String _ s' => last_is_star s'
  end.

(** [s.replace("*", by)]: only the first occurrence is replaced. *)
Fixpoint replace_star (s by_ : string) : string :=
  match s with
  | EmptyString => EmptyString
  | String c s' =>
      if Ascii.eqb c "*" then by_ +:+ s' else String c (replace_star s' by_)
  end.

Definition all_word (s : string) : bool :=
  forallb is_word (list_ascii_of_string s).

(** [s.match(/\d+/)]: the first maximal run of digits, if any. *)
Fixpoint take_digits (s : string) : string :=
  match s with
  | EmptyString => EmptyString
  | String c s' => if is_digit c then String c (take_digits s') else EmptyString
  end.

Fixpoint match_digits (s : string) : option string :=
  match s with
  | EmptyString => None
  | String c s' => if is_digit c then Some (take_digits s) else match_digits s'
  end.

(** ToNumber of a run of digits, and ToString of an item id. *)
Definition to_number (ds : string) : nat :=
  match NilEmpty.uint_of_string ds with
  | Some d => Nat.of_uint d
  | None => 0
  end.

Definition of_number (n : nat) : string :=
  NilEmpty.string_of_uint (Nat.to_uint n).

End Str.

(** ** The regular expressions the plugin builds

    [new RegExp(source, "i")] followed by [exec(subject) !== null].  The
    sources built by the plugin are an optional [^], then characters of
    the query (literal when they are not syntax characters), [\w], a
    postfix [*], and an optional final [$].  Other syntax is answered by
    [Unsupported]. *)

Module RegExp.

Inductive atom : Type :=
  | Lit (c : ascii)
  | Word.

Record t : Type := mk {
  from_start : bool;
  items : list (atom * bool);   (* atom, starred? *)
  to_end : bool
}.

(** SyntaxCharacter of the ECMAScript pattern grammar. *)
Definition is_syntax (c : ascii) : bool :=
  existsb (Ascii.eqb c)
    ["^"; "$"; "\"; "."; "*"; "+"; "?"; "("; ")"; "["; "]"; "{"; "}"; "|"]%char.

Fixpoint parse_items (s : string) : completion (list (atom * bool) * bool) :=
  match s with
  | EmptyString => Ret ([], false)
  | String c rest =>
      if Ascii.eqb c "$" then
        match rest with
        | EmptyString => Ret ([], true)
        | _ => Throw Unsupported
        end
      else if Ascii.eqb c "*" then Throw SyntaxError   (* nothing to repeat *)
      else if Ascii.eqb c "\" then
        match rest with
        | String "w" rest' =>
            match rest' with
            | String "*" rest'' =>
                match parse_items rest'' with
                | Ret (its, e) => Ret ((Word, true) :: its, e)
                | Throw x => Throw x
                end
            | _ =>
                match parse_items rest' with
                | Ret (its, e) => Ret ((Word, false) :: its, e)
                | Throw x => Throw x
                end
            end
        | _ => Throw Unsupported
        end
      else if is_syntax c then Throw Unsupported
      else
        match rest with
        | String "*" rest' =>
            match parse_items rest' with
            | Ret (its, e) => Ret ((Lit c, true) :: its, e)
            | Throw x => Throw x
            end
        | _ =>
            match parse_items rest with
            | Ret (its, e) => Ret ((Lit c, false) :: its, e)
            | Throw x => Throw x
            end
        end
  end.

(** [new RegExp(source, "i")] *)
Definition new (source : string) : completion t :=
  match source with
  | String "^" body =>
      match parse_items body with
      | Ret (its, e) => Ret (mk true its e)
      | Throw x => Throw x
      end
  | _ =>
      match parse_items source with
      | Ret (its, e) => Ret (mk false its e)
      | Throw x => Throw x
      end
  end.

(** With the [i] flag both sides are canonicalised before comparing. *)
Definition atom_ok (a : atom) (c : ascii) : bool :=
  match a with
  | Lit x => Ascii.eqb (Str.upper_char x) (Str.upper_char c)
  | Word => Str.is_word c
  end.

Fixpoint match_here (its : list (atom * bool)) (e : bool) : string -> bool :=
  match its with
  | [] => fun s => if e then match s with EmptyString => true | _ => false end else true
  | (a, false) :: r => fun s =>
      match s with
      | String c s' => atom_ok a c && match_here r e s'
      | EmptyString => false
      end
  | (a, true) :: r =>
      fix star (s : string) : bool :=
        match_here r e s ||
        match s with
        | String c s' => atom_ok a c && star s'
        | EmptyString => false
        end
  end.

Fixpoint match_anywhere (its : list (atom * bool)) (e : bool) (s : string) : bool :=
  match_here its e s ||
  match s with
  | String _ s' => match_anywhere its e s'
  | EmptyString => false
  end.

(** [exp.exec(subject) !== null] *)
Definition exec (exp : t) (subject : string) : bool :=
  if from_start exp then match_here (items exp) (to_end exp) subject
  else match_anywhere (items exp) (to_end exp) subject.

End RegExp.

(** ** Data model *)

(** Database items, weapons and armours all carry the same fields once
    the note tags have been processed. *)
Record Item : Type := mkItem {
  id : nat;
  tags : list string;
  augmentSlots : list string;
  augmentSlotItems : list string;      (* "none" or a reference such as "item 12" *)
  augmentRequirements : list string;
  augmentGrantedTags : list string;
  augmentRejectionString : string
}.

Definition set_tags (i : Item) (ts : list string) : Item :=
  mkItem (id i) ts (augmentSlots i) (augmentSlotItems i)
         (augmentRequirements i) (augmentGrantedTags i) (augmentRejectionString i).

Definition set_augmentSlotItems (i : Item) (ss : list string) : Item :=
  mkItem (id i) (tags i) (augmentSlots i) ss
         (augmentRequirements i) (augmentGrantedTags i) (augmentRejectionString i).

(** [Window_AugmentRejection]: the text it draws and whether it is shown. *)
Record Window : Type := mkWindow {
  text : string;
  visible : bool
}.

(** Everything the lifecycle reads or writes: [$dataItems], the item
    being customised, [$gameParty]'s item container and
    [SceneManager._scene._augmentRejectionWindow] (absent outside the
    customise scene). *)
Record World : Type := mkWorld {
  dataItems : list (option Item);
  host : Item;
  partyItems : gmap nat nat;
  augmentRejectionWindow : option Window
}.

Definition set_host (w : World) (i : Item) : World :=
  mkWorld (dataItems w) i (partyItems w) (augmentRejectionWindow w).

Definition set_partyItems (w : World) (m : gmap nat nat) : World :=
  mkWorld (dataItems w) (host w) m (augmentRejectionWindow w).

Definition set_window (w : World) (win : option Window) : World :=
  mkWorld (dataItems w) (host w) (partyItems w) win.

(** ** State and abrupt completion *)

Definition M (S A : Type) : Type := S -> S * completion A.

Definition unit_ {S A} (a : A) : M S A := fun s => (s, Ret a).

Definition raise {S A} (e : exn) : M S A := fun s => (s, Throw e).

Definition andThen {S A B} (m : M S A) (k : A -> M S B) : M S B :=
  fun s =>
    match m s with
    | (s', Ret a) => k a s'
    | (s', Throw e) => (s', Throw e)
    end.

Notation "'let!' x ':=' m 'in' k" := (andThen m (fun x => k))
  (at level 10, x name, m at level 100, k at level 200).
Notation "m ';;;' k" := (andThen m (fun _ => k))
  (at level 100, k at level 200, right associativity).

Definition read {S} : M S S := fun s => (s, Ret s).

Definition pure_ {S A} (c : completion A) : M S A := fun s => (s, c).

Definition update {S} (f : S -> S) : M S unit := fun s => (f s, Ret tt).

(** Run a computation on the item inside the world. *)
Definition on_host {A} (m : M Item A) : M World A :=
  fun w => let '(i, r) := m (host w) in (set_host w i, r).

(** ** Kaos.Augment *)

Module Augment.

(** The regular-expression source every matcher of the plugin builds
    from the (upper-cased) query. *)
Definition wildcardRegex (tag : string) : string :=
  if Str.has_star tag then
    if Str.first_is_star tag then Str.replace_star tag "" +:+ "$"
    else if Str.last_is_star tag then "^" +:+ Str.replace_star tag ""
    else "^" +:+ Str.replace_star tag "\w*" +:+ "$"
  else "^" +:+ tag +:+ "$".

(** One round of the loop body: does [current] match the query? *)
Definition matches (tag current : string) : completion bool :=
  match RegExp.new (wildcardRegex tag) with
  | Ret exp => Ret (RegExp.exec exp (Str.toUpperCase current))
  | Throw e => Throw e
  end.

(** [Kaos.Augment.baseHasReqs = function(req, reqs)] *)
Fixpoint baseHasReqs (req : string) (reqs : list string) : completion bool :=
  match reqs with
  | [] => Ret false
  | currentReq :: rest =>
      let req := Str.toUpperCase req in
      match matches req currentReq with
      | Ret true => Ret true
      | Ret false => baseHasReqs req rest
      | Throw e => Throw e
      end
  end.

(** The loop of [hasTag] and [hasGrant] from position [t] on. *)
Fixpoint scan (tag : string) (candidates : list string) (t : nat)
         (found : bool) (index : nat) : completion (bool * nat) :=
  match candidates with
  | [] => Ret (found, index)
  | current :: rest =>
      let tag := Str.toUpperCase tag in
      match matches tag current with
      | Ret true => scan tag rest (S t) true t
      | Ret false => scan tag rest (S t) found index
      | Throw e => Throw e
      end
  end.

(** [Kaos.Augment.hasTag = function(item, tag, returnIndex)] *)
Definition hasTag (item : Item) (tag : string) (returnIndex : bool) : completion jsval :=
  let returnIndex := returnIndex || false in
  match scan tag (tags item) 0 false 0 with
  | Ret (itemHasTag, index) =>
      Ret (if itemHasTag && returnIndex then JNum index else JBool itemHasTag)
  | Throw e => Throw e
  end.

(** [Kaos.Augment.hasGrant = function(item, grant, returnIndex)] *)
Definition hasGrant (item : Item) (grant : string) (returnIndex : bool) : completion jsval :=
  let returnIndex := returnIndex || false in
  match scan grant (augmentGrantedTags item) 0 false 0 with
  | Ret (itemHasGrant, index) =>
      Ret (if itemHasGrant && returnIndex then JNum index else JBool itemHasGrant)
  | Throw e => Throw e
  end.

(** [array.indexOf(x)] *)
Fixpoint indexOf (x : string) (l : list string) : option nat :=
  match l with
  | [] => None
  | y :: l' => if String.eqb y x then Some 0 else S <$> indexOf x l'
  end.

(** [Kaos.Augment.removeTag = function(item, tag)] *)
Definition removeTag (item : Item) (tag : string) : Item :=
  match indexOf (Str.toUpperCase tag) (tags item) with
  | Some index => set_tags item (delete index (tags item))
  | None => item
  end.

(** [Kaos.Augment.addTag = function(item, tag)] *)
Definition addTag (item : Item) (tag : string) : Item :=
  let item := removeTag item (Str.toUpperCase tag) in
  set_tags item (tags item ++ [Str.toUpperCase tag]).

(** [Kaos.Augment.addGrantedTags = function(item, augment)] *)
Definition addGrantedTags (item augment : Item) : Item :=
  foldl (fun item grant => addTag item ("aug_" +:+ grant)) item (augmentGrantedTags augment).

(** [otherAugment != "none" && otherAugment.match(/\d+/) != augment.id] *)
Definition is_other (otherAugment : string) (augment : Item) : bool :=
  negb (String.eqb otherAugment "none") &&
  match Str.match_digits otherAugment with
  | Some ds => negb (Nat.eqb (Str.to_number ds) (id augment))
  | None => true
  end.

(** [$dataItems[otherAugment.match(/\d+/)]]: the digits are used as a
    property key, so only a canonical index finds an element. *)
Definition dataItem (data : list (option Item)) (otherAugment : string) : option Item :=
  match Str.match_digits otherAugment with
  | Some ds =>
      if String.eqb (Str.of_number (Str.to_number ds)) ds
      then mjoin (data !! Str.to_number ds)
      else None
  | None => None
  end.

(** The inner loop of [removeGrantedTags] over [item.augmentSlotItems]. *)
Fixpoint scanSlots (data : list (option Item)) (slots : list string)
         (augment : Item) (grant : string) (flag : bool) : completion bool :=
  match slots with
  | [] => Ret flag
  | otherAugment :: rest =>
      if is_other otherAugment augment then
        match dataItem data otherAugment with
        | Some other =>
            match hasGrant other grant false with
            | Ret v => scanSlots data rest augment grant (if truthy v then false else flag)
            | Throw e => Throw e
            end
        | None => Throw TypeError
        end
      else scanSlots data rest augment grant flag
  end.

(** The outer loop; [flag] is the variable [removeTag], initialised
    once before the loop. *)
Fixpoint removeGrantedTags_from (data : list (option Item)) (augment : Item)
         (grants : list string) (flag : bool) : M Item unit :=
  match grants with
  | [] => unit_ tt
  | grant :: rest =>
      let! item := read in
      let! flag := pure_ (scanSlots data (augmentSlotItems item) augment grant flag) in
      (if flag then update (fun item => removeTag item ("aug_" +:+ grant)) else unit_ tt);;;
      removeGrantedTags_from data augment rest flag
  end.

(** [Kaos.Augment.removeGrantedTags = function(item, augment)] *)
Definition removeGrantedTags (data : list (option Item)) (augment : option Item) : M Item unit :=
  match augment with
  | Some augment => removeGrantedTags_from data augment (augmentGrantedTags augment) true
  | None => raise TypeError
  end.

(** The inner loop of [checkRequirements] over [item.tags]. *)
Fixpoint requirementMet (requirement : string) (ts : list string) (okToInstall : bool) : bool :=
  match ts with
  | [] => okToInstall
  | t :: rest =>
      requirementMet requirement rest (if String.eqb requirement t then true else okToInstall)
  end.

Fixpoint checkRequirements_from (requirement : list string) (ts : list string) : bool :=
  match requirement with
  | [] => true
  | r :: rest =>
      if negb (requirementMet r ts false) then false
      else checkRequirements_from rest ts
  end.

(** [Kaos.Augment.checkRequirements = function(augment, item)] *)
Definition checkRequirements (augment item : Item) : bool :=
  checkRequirements_from (augmentRequirements augment) (tags item).

(** [Kaos.Augment.showRejection = function(augment)], through
    [Window_AugmentRejection.prototype.setItem] and [show]. *)
Definition showRejection (augment : option Item) : M World unit :=
  let! w := read in
  match augmentRejectionWindow w with
  | Some win =>
      let shown := match augment with
                   | Some a => augmentRejectionString a
                   | None => ""
                   end in
      update (fun w => set_window w (Some (mkWindow shown true)))
  | None => raise TypeError
  end.

End Augment.

(** ** ItemManager

    [applyAugmentEffects] and [removeAugmentFromSlot] are the plugin's
    replacements of the functions of YEP_X_AttachAugments; the other
    members are that plugin's and the engine's. *)

Module ItemManager.

(** Modelled from the spec: [ItemManager.augmentInSlot] of the slot
    collaborator.  A slot entry is the sentinel ["none"] or a reference
    to the installed augment's identifier, decoded as the plugin itself
    decodes it ([$dataItems[entry.match(/\d+/)]]); an empty or missing
    slot answers a falsy value, which is what the guard
    [if (!augment)] of [removeAugmentFromSlot] expects. *)
Definition augmentInSlot (slotId : nat) : M World (option Item) :=
  let! w := read in
  match augmentSlotItems (host w) !! slotId with
  | Some entry =>
      if String.eqb entry "none" then unit_ None
      else unit_ (Augment.dataItem (dataItems w) entry)
  | None => unit_ None
  end.

(** Modelled from the spec: [ItemManager.installAugmentToSlot] of the
    slot collaborator records the occupant in [augmentSlotItems], the
    sentinel when there is none.  Its attach effects on the item's
    statistics are outside the data model. *)
Definition installAugmentToSlot (effectItem : option Item) (slotId : nat) : M World unit :=
  let! w := read in
  match augmentSlots (host w) !! slotId with
  | Some _ =>
      let entry := match effectItem with
                   | Some e => "item " +:+ Str.of_number (id e)
                   | None => "none"
                   end in
      on_host (update (fun item =>
        set_augmentSlotItems item (<[slotId := entry]> (augmentSlotItems item))))
  | None => raise TypeError
  end.

(** Modelled from the spec: [$gameParty.gainItem(item, amount)] of the
    inventory collaborator changes the quantity held, never below
    zero; a missing item is ignored. *)
Definition gainItem (item : option Item) (amount : Z) : M World unit :=
  match item with
  | Some i =>
      update (fun w =>
        let lastNumber := default 0 (partyItems w !! id i) in
        let newNumber := Z.to_nat (Z.of_nat lastNumber + amount) in
        set_partyItems w
          (if Nat.eqb newNumber 0 then delete (id i) (partyItems w)
           else <[id i := newNumber]> (partyItems w)))
  | None => unit_ tt
  end.

(** [$gameParty.loseItem(item, amount)] *)
Definition loseItem (item : option Item) (amount : Z) : M World unit :=
  gainItem item (- amount).

(** [ItemManager.removeAugmentFromSlot = function(item, slotId)] *)
Definition removeAugmentFromSlot (slotId : nat) : M World (option Item) :=
  let! occupant := augmentInSlot slotId in
  let! w := read in
  on_host (Augment.removeGrantedTags (dataItems w) occupant);;;
  let! item := on_host read in
  match augmentSlots item !! slotId with
  | Some _ =>                      (* var type = ...toUpperCase().trim() *)
      let! augment := augmentInSlot slotId in
      match augment with
      | Some a => unit_ (Some a)   (* detach effects: outside the data model *)
      | None => unit_ None
      end
  | None => raise TypeError
  end.

(** [ItemManager.applyAugmentEffects = function(item, effectItem, slotId, gain)],
    for an [item] that is not null. *)
Definition applyAugmentEffects (effectItem : option Item) (slotId : nat) (gain : nat) : M World unit :=
  let! okToInstall :=
    match effectItem with
    | Some e =>
        let! item := on_host read in
        let okToInstall := Augment.checkRequirements e item in
        (if okToInstall then on_host (update (fun item => Augment.addGrantedTags item e))
         else unit_ tt);;;
        unit_ okToInstall
    | None => unit_ false          (* undefined *)
    end in
  (if okToInstall || negb (bool_decide (is_Some effectItem)) then
     let! item := on_host read in
     (if negb (bool_decide (augmentSlotItems item !! slotId = Some "none")) then
        let! augment := removeAugmentFromSlot slotId in
        match augment with
        | Some a => gainItem (Some a) (Z.of_nat gain)
        | None => unit_ tt
        end
      else unit_ tt);;;
     installAugmentToSlot effectItem slotId;;;
     loseItem effectItem (Z.of_nat gain)
   else unit_ tt);;;
  if negb okToInstall then Augment.showRejection effectItem else unit_ tt.

End ItemManager.

(** ** Script calls *)

Module Script.

(** [Kaos.Augment.installAugmentToSlot = function(item, effectItem, slotId, gain)] *)
Definition installAugmentToSlot (effectItem : option Item) (slotId : nat) (gain : nat) : M World unit :=
  ItemManager.applyAugmentEffects effectItem slotId gain;;;
  ItemManager.loseItem effectItem 1.

(** [Kaos.Augment.removeAugmentFromSlot = function(item, slotId, gain)].
    The final write is always in range: for a slot that does not exist
    the first call has already completed abruptly. *)
Definition removeAugmentFromSlot (slotId : nat) (gain : bool) : M World (option Item) :=
  let gain := gain || true in
  let! occupant := ItemManager.augmentInSlot slotId in
  let! w := read in
  on_host (Augment.removeGrantedTags (dataItems w) occupant);;;
  let! augment := ItemManager.removeAugmentFromSlot slotId in
  (if gain then ItemManager.gainItem augment 1 else unit_ tt);;;
  on_host (update (fun item =>
    set_augmentSlotItems item (<[slotId := "none"]> (augmentSlotItems item))));;;
  unit_ augment.

End Script.

(** ** The rejection-string methods of database objects

    [processNotetags] gives every object of [$dataItems] the methods
    [hasReject], [removeReject] and [replaceReject]. *)

Definition set_augmentRejectionString (i : Item) (s : string) : Item :=
  mkItem (id i) (tags i) (augmentSlots i) (augmentSlotItems i)
         (augmentRequirements i) (augmentGrantedTags i) s.

Module Methods.

(** [Kaos.Augment.baseHasRejectString = function(reject, rejects)].  The
    caller passes the rejection string itself, so [rejects[r]] is its
    [r]-th character. *)
Fixpoint baseHasRejectString (reject : string) (rejects : string) : completion bool :=
  match rejects with
  | EmptyString => Ret false
  | String currentReject rest =>
      let reject := Str.toUpperCase reject in
      match Augment.matches reject (String currentReject EmptyString) with
      | Ret true => Ret true
      | Ret false => baseHasRejectString reject rest
      | Throw e => Throw e
      end
  end.

(** [obj.hasReject = function(reject)] *)
Definition hasReject (obj : Item) (reject : string) : completion bool :=
  baseHasRejectString reject (augmentRejectionString obj).

(** [obj.removeReject = function()] *)
Definition removeReject (obj : Item) : Item :=
  set_augmentRejectionString obj "".

(** [obj.replaceReject = function(reject)] *)
Definition replaceReject (obj : Item) (reject : string) : Item :=
  let obj := removeReject obj in
  set_augmentRejectionString obj reject.

End Methods.

(** ** Note tags

    The body of [processNotetags] for one database object: the note is
    split into lines, every line is matched against the tag's regular
    expression, and what the match captures is appended to the field.
    An array may hold [null] (here [None]): [concat] of a failed
    [match(/\w+/gi)] appends it. *)

Module Notetags.

(** The line terminators of [/[\r\n]+/]. *)
Definition is_newline (c : ascii) : bool :=
  Ascii.eqb c "010" || Ascii.eqb c "013".

(** [note.split(/[\r\n]+/)], from a position that is the start of a
    piece ([in_separator = false]) or inside a run of terminators. *)
Fixpoint split_from (s : string) (in_separator : bool) : list string :=
  match s with
  | EmptyString => [EmptyString]
  | String c s' =>
      if is_newline c then
        if in_separator then split_from s' true
        else EmptyString :: split_from s' true
      else
        match split_from s' false with
        | piece :: pieces => String c piece :: pieces
        | [] => [String c EmptyString]
        end
  end.

Definition split (note : string) : list string := split_from note false.

(** Does [s] begin with [prefix], letter case ignored?  Answers the rest. *)
Fixpoint after_prefix (prefix s : string) : option string :=
  match prefix, s with
  | EmptyString, _ => Some s
  | String p prefix', String c s' =>
      if Ascii.eqb (Str.upper_char p) (Str.upper_char c)
      then after_prefix prefix' s' else None
  | String _ _, EmptyString => None
  end.

(** The greedy group and the closing bracket, from the start of [s]:
    the longest run of characters other than line terminators that is
    followed by [>]. *)
Fixpoint capture (s : string) : option string :=
  match s with
  | EmptyString => None
  | String c s' =>
      if is_newline c then None
      else
        match capture s' with
        | Some body => Some (String c body)
        | None => if Ascii.eqb c ">" then Some EmptyString else None
        end
  end.

(** [line.match(regex)] for the regular expression of a tag: [<], the
    keyword, a colon, a space, a greedy group of any characters, [>],
    letter case ignored.  Answers the group of the leftmost match. *)
Fixpoint lineMatch (keyword : string) (line : string) : option string :=
  match after_prefix ("<" +:+ keyword +:+ ": ") line ≫= capture with
  | Some body => Some body
  | None =>
      match line with
      | String _ line' => lineMatch keyword line'
      | EmptyString => None
      end
  end.

(** The matches of [/\w+/g]: the maximal runs of word characters. *)
Fixpoint words (s : string) : list string :=
  match s with
  | EmptyString => []
  | String c s' =>
      if Str.is_word c then
        match s' with
        | String c' _ =>
            if Str.is_word c' then
              match words s' with
              | w :: ws => String c w :: ws
              | [] => [String c EmptyString]
              end
            else String c EmptyString :: words s'
        | EmptyString => [String c EmptyString]
        end
      else words s'
  end.

(** [s.match(/\w+/gi)]: [null] when nothing matches. *)
Definition matchWords (s : string) : option (list string) :=
  match words s with
  | [] => None
  | ws => Some ws
  end.

(** [array.concat(data)] for [data] an array or [null]. *)
Definition concat (array : list (option string)) (data : option (list string)) : list (option string) :=
  match data with
  | Some ws => array ++ map Some ws
  | None => array ++ [None]
  end.

(** The loop over the lines for a list-valued tag. *)
Fixpoint collect (keyword : string) (notelines : list string)
         (array : list (option string)) : list (option string) :=
  match notelines with
  | [] => array
  | line :: rest =>
      match lineMatch keyword line with
      | Some body => collect keyword rest (concat array (matchWords (Str.toUpperCase body)))
      | None => collect keyword rest array
      end
  end.

(** [obj.augmentRequirements] after the first loop, from the note and
    the field's previous value ([None] when it was undefined). *)
Definition requirements (note : string) (previous : option (list (option string))) : list (option string) :=
  collect "AUGMENT REQUIRES TAGS" (split note) (default [] previous).

(** [obj.augmentGrantedTags] after the second loop. *)
Definition grants (note : string) (previous : option (list (option string))) : list (option string) :=
  collect "AUGMENT GRANTS TAGS" (split note) (default [] previous).

(** The loop over the lines for the rejection string. *)
Fixpoint collectText (keyword : string) (notelines : list string) (text : string) : string :=
  match notelines with
  | [] => text
  | line :: rest =>
      match lineMatch keyword line with
      | Some body => collectText keyword rest (text +:+ body)
      | None => collectText keyword rest text
      end
  end.

(** [obj.augmentRejectionString] after the third loop. *)
Definition rejection (note : string) (previous : option string) : string :=
  collectText "AUGMENT REJECTION STRING" (split note) (default "" previous).

End Notetags.

(** ** Notions used by the statements *)

(** [candidate] matches the query [tag]: the test made by one round of
    the matcher loops. *)
Definition matching (tag candidate : string) : Prop :=
  Augment.matches (Str.toUpperCase tag) candidate = Ret true.

(** Position [i] holds the last candidate matching [tag]. *)
Definition last_match (tag : string) (candidates : list string) (i : nat) : Prop :=
  (exists c, candidates !! i = Some c /\ matching tag c) /\
  (forall j c, i < j -> candidates !! j = Some c -> ~ matching tag c).

(** The items a run of literal characters compiles to. *)
Definition literal (s : string) : list (RegExp.atom * bool) :=
  map (fun c => (RegExp.Lit c, false)) (list_ascii_of_string s).

(** [candidate] is [A], then word characters (possibly none), then [B],
    letter case ignored. *)
Definition spans (A B candidate : string) : Prop :=
  exists mid, Str.all_word mid = true /\
    Str.toUpperCase candidate = Str.toUpperCase A +:+ mid +:+ Str.toUpperCase B.

(** The stored form of a granted tag: ["aug_" + grant], upper-cased. *)
Definition namespaced (grant : string) : string :=
  Str.toUpperCase ("aug_" +:+ grant).

(** A string in the form the note-tag parser, [addReq] and [addTag] store. *)
Definition stored (s : string) : Prop := Str.toUpperCase s = s.

(** The augments currently installed in the slots of the host. *)
Definition installed (w : World) : list Item :=
  omap (fun entry =>
          if String.eqb entry "none" then None
          else Augment.dataItem (dataItems w) entry)
       (augmentSlotItems (host w)).

(** The invariant of granted tags: ["AUG_" + g] is on the host exactly
    when an installed augment grants [g]. *)
Definition grant_invariant (w : World) : Prop :=
  forall g : string,
    ("AUG_" +:+ g) ∈ tags (host w) <->
    exists a, a ∈ installed w /\ g ∈ augmentGrantedTags a.

(** [l] without the first occurrence of [x]: what [indexOf] followed by
    [splice(index, 1)] leaves. *)
Fixpoint remove1 (x : string) (l : list string) : list string :=
  match l with
  | [] => []
  | y :: l' => if String.eqb y x then l' else y :: remove1 x l'
  end.

(** The tags after adding, respectively removing, each of [ns] in turn. *)
Definition add_all (ns l : list string) : list string :=
  foldl (fun l n => (remove1 n l ++ [n])%list) l ns.

Definition remove_all (ns l : list string) : list string :=
  foldl (fun l n => remove1 n l) l ns.

(** How often [x] occurs in [l]. *)
Fixpoint occurrences (x : string) (l : list string) : nat :=
  match l with
  | [] => 0
  | y :: l' => (if String.eqb y x then 1 else 0) + occurrences x l'
  end.

(** No character of [s] satisfies [bad]. *)
Definition lacks (bad : ascii -> bool) (s : string) : bool :=
  forallb (fun c => negb (bad c)) (list_ascii_of_string s).

(** The terms of a list-valued note tag, separated by a comma and a space. *)
Fixpoint commaList (ws : list string) : string :=
  match ws with
  | [] => ""
  | [w] => w
  | w :: ws' => w +:+ ", " +:+ commaList ws'
  end.

(** An entry as the note-tag parser stores it: [null], or a non-empty
    run of word characters in upper case. *)
Definition parsed_entry (o : option string) : Prop :=
  match o with
  | Some r => r <> "" /\ Str.all_word r = true /\ stored r
  | None => True
  end.

(** A slot entry that cannot veto the removal of the tags granted by
    [augment]: empty, or an augment granting none of them. *)
Definition quiet (data : list (option Item)) (augment : Item) (entry : string) : Prop :=
  entry = "none" \/
  exists other, Augment.dataItem data entry = Some other /\
    forall g, g ∈ augmentGrantedTags augment ->
      Augment.hasGrant other g false = Ret (JBool false).

(** ** Concrete items and worlds *)

Module Scenario.

(** Augment 1 requires CANFULLAUTO and grants A and B. *)
Definition software : Item :=
  mkItem 1 [] [] [] ["CANFULLAUTO"] ["A"; "B"] "Software Rejected!".

(** Augment 2 requires nothing and grants A. *)
Definition patch : Item := mkItem 2 [] [] [] [] ["A"] "".

(** Augment 3 requires CANFULLAUTO and grants HACKED. *)
Definition hack : Item := mkItem 3 [] [] [] ["CANFULLAUTO"] ["HACKED"] "Software Rejected!".

Definition database : list (option Item) :=
  [None; Some software; Some patch; Some hack].

(** A two-slot gun carrying the tag CANFULLAUTO, both slots empty. *)
Definition gun : Item :=
  mkItem 3000 ["CANFULLAUTO"] ["Gun Software"; "Gun Software"] ["none"; "none"] [] [] "".

(** The same gun without any tag. *)
Definition plain_gun : Item := set_tags gun [].

Definition world (h : Item) : World :=
  mkWorld database h {[1 := 5; 2 := 5; 3 := 5]} (Some (mkWindow "" false)).

(** The gun with [software] already installed in slot 0. *)
Definition gun_with_software : Item :=
  mkItem 3000 ["CANFULLAUTO"; "AUG_A"; "AUG_B"] ["Gun Software"; "Gun Software"]
         ["item 1"; "none"] [] [] "".

End Scenario.

(** * Properties *)

(** ** Characters and strings *)

Ltac each_ascii c :=
  destruct c as [[|] [|] [|] [|] [|] [|] [|] [|]].

Lemma upper_char_idem (c : ascii) : Str.upper_char (Str.upper_char c) = Str.upper_char c.
Proof. each_ascii c; reflexivity. Qed.

Lemma is_word_upper_char (c : ascii) : Str.is_word (Str.upper_char c) = Str.is_word c.
Proof. each_ascii c; reflexivity. Qed.

Lemma is_word_plain (c : ascii) :
  Str.is_word c = true ->
  Ascii.eqb c "$" = false /\ Ascii.eqb c "*" = false /\
  Ascii.eqb c "\" = false /\ RegExp.is_syntax c = false.
Proof. each_ascii c; vm_compute; intros; try discriminate; auto. Qed.

Lemma toUpperCase_idem (s : string) : Str.toUpperCase (Str.toUpperCase s) = Str.toUpperCase s.
Proof. induction s as [|c s IH]; simpl; [reflexivity|]. by rewrite upper_char_idem, IH. Qed.

Lemma app_cons (c : ascii) (s1 s2 : string) : String c s1 +:+ s2 = String c (s1 +:+ s2).
Proof. reflexivity. Qed.

Lemma app_empty_l (s : string) : "" +:+ s = s.
Proof. reflexivity. Qed.

Lemma toUpperCase_app (s1 s2 : string) :
  Str.toUpperCase (s1 +:+ s2) = Str.toUpperCase s1 +:+ Str.toUpperCase s2.
Proof.
  induction s1 as [|c s1 IH]; [reflexivity|].
  rewrite app_cons. simpl. by rewrite app_cons, IH.
Qed.

Lemma app_assoc_s (s1 s2 s3 : string) : (s1 +:+ s2) +:+ s3 = s1 +:+ (s2 +:+ s3).
Proof. induction s1 as [|c s1 IH]; [reflexivity|]. rewrite !app_cons. by f_equal. Qed.

Lemma app_empty_r (s : string) : s +:+ "" = s.
Proof. induction s as [|c s IH]; [reflexivity|]. rewrite app_cons. by f_equal. Qed.

Lemma all_word_cons (c : ascii) (s : string) :
  Str.all_word (String c s) = Str.is_word c && Str.all_word s.
Proof. reflexivity. Qed.

Lemma all_word_app (s1 s2 : string) :
  Str.all_word (s1 +:+ s2) = Str.all_word s1 && Str.all_word s2.
Proof.
  induction s1 as [|c s1 IH]; [reflexivity|].
  rewrite app_cons, !all_word_cons, IH. by rewrite andb_assoc.
Qed.

Lemma all_word_toUpperCase (s : string) : Str.all_word (Str.toUpperCase s) = Str.all_word s.
Proof.
  induction s as [|c s IH]; [reflexivity|].
  simpl Str.toUpperCase. by rewrite !all_word_cons, is_word_upper_char, IH.
Qed.

(** ** Monadic plumbing *)

Lemma set_host_same (w : World) : set_host w (host w) = w.
Proof. by destruct w. Qed.

Lemma set_tags_same (i : Item) : set_tags i (tags i) = i.
Proof. by destruct i. Qed.

(** ** Requirement evaluation *)

Lemma requirementMet_spec (r : string) (ts : list string) (ok : bool) :
  Augment.requirementMet r ts ok = ok || bool_decide (r ∈ ts).
Proof.
  revert ok. induction ts as [|t ts IH]; intros ok.
  - cbn [Augment.requirementMet]. case_bool_decide as Hin.
    + by apply elem_of_nil in Hin.
    + by rewrite orb_false_r.
  - cbn [Augment.requirementMet]. rewrite IH.
    destruct (String.eqb r t) eqn:E.
    + apply String.eqb_eq in E. subst t.
      rewrite (bool_decide_eq_true_2 (r ∈ r :: ts)) by left.
      by rewrite orb_true_r.
    + apply String.eqb_neq in E.
      case_bool_decide as H1; case_bool_decide as H2; try done.
      * exfalso. apply H2. by right.
      * exfalso. apply elem_of_cons in H2 as [?|?]; done.
Qed.

Lemma checkRequirements_from_spec (rs ts : list string) :
  Augment.checkRequirements_from rs ts = true <-> (forall r, r ∈ rs -> r ∈ ts).
Proof.
  induction rs as [|r rs IH]; cbn [Augment.checkRequirements_from].
  - split; [intros _ r Hr; by apply elem_of_nil in Hr | done].
  - rewrite requirementMet_spec. cbn [orb].
    case_bool_decide as Hin; cbn [negb].
    + rewrite IH. split.
      * intros H r' [->|?]%elem_of_cons; auto.
      * intros H r' Hr'. apply H. by right.
    + split; [done|]. intros H. exfalso. apply Hin, H. left.
Qed.

Lemma checkRequirements_from_app (rs1 rs2 ts : list string) :
  Augment.checkRequirements_from (rs1 ++ rs2) ts =
  Augment.checkRequirements_from rs1 ts && Augment.checkRequirements_from rs2 ts.
Proof.
  induction rs1 as [|r rs1 IH]; simpl; [reflexivity|].
  destruct (negb (Augment.requirementMet r ts false)); [reflexivity | apply IH].
Qed.

(** C2. Requirement evaluation succeeds exactly when every entry of
    [augment.augmentRequirements] is, as a string, an element of
    [item.tags]; an empty requirement list passes; evaluation is the
    conjunction over the entries; and no wildcard is interpreted: the
    requirement ["CAN*"] is not met by the tag ["CANFULLAUTO"], which
    [hasTag] would match. *)
Theorem checkRequirements_exact_membership (augment item : Item) :
  (Augment.checkRequirements augment item = true <->
     forall r, r ∈ augmentRequirements augment -> r ∈ tags item) /\
  Augment.checkRequirements_from [] (tags item) = true /\
  (forall rs1 rs2,
     Augment.checkRequirements_from (rs1 ++ rs2) (tags item) =
     Augment.checkRequirements_from rs1 (tags item) &&
     Augment.checkRequirements_from rs2 (tags item)) /\
  Augment.checkRequirements_from ["CAN*"] ["CANFULLAUTO"] = false /\
  Augment.hasTag Scenario.gun "CAN*" false = Ret (JBool true).
Proof.
  split; [apply checkRequirements_from_spec|].
  split; [reflexivity|].
  split; [intros; apply checkRequirements_from_app|].
  split; reflexivity.
Qed.




(** ** Rejected installs *)



(** ** The matcher loops *)

Lemma matches_total (tag c c' : string) :
  Augment.matches tag c = Ret true -> exists b, Augment.matches tag c' = Ret b.
Proof.
  unfold Augment.matches. destruct (RegExp.new _); [eauto | discriminate].
Qed.

Lemma scan_upper (tag : string) (cands : list string) (t : nat) (found : bool) (index : nat) :
  Augment.scan tag cands t found index =
  Augment.scan (Str.toUpperCase tag) cands t found index.
Proof. destruct cands; cbn; [reflexivity|]. by rewrite toUpperCase_idem. Qed.

Lemma scan_no_match (tag : string) (cands : list string) (t : nat) (found : bool) (index : nat) :
  Str.toUpperCase tag = tag ->
  (forall c, c ∈ cands -> Augment.matches tag c = Ret false) ->
  Augment.scan tag cands t found index = Ret (found, index).
Proof.
  intros Hup. revert t found index.
  induction cands as [|c cands IH]; intros t found index Hno; cbn; [reflexivity|].
  rewrite Hup, (Hno c) by left. apply IH. intros c' Hc'. apply Hno. by right.
Qed.

Lemma scan_last_match (tag : string) (cands : list string) (t : nat)
    (found : bool) (index i : nat) (c : string) :
  Str.toUpperCase tag = tag ->
  cands !! i = Some c ->
  Augment.matches tag c = Ret true ->
  (forall j c', i < j -> cands !! j = Some c' -> Augment.matches tag c' <> Ret true) ->
  Augment.scan tag cands t found index = Ret (true, t + i).
Proof.
  intros Hup. revert t found index i.
  induction cands as [|c0 cands IH]; intros t found index i Hi Hm Hlast;
    [discriminate|].
  cbn. rewrite Hup. destruct i as [|i].
  - injection Hi as ->. rewrite Hm, Nat.add_0_r.
    apply scan_no_match; [done|]. intros c' [k Hk]%list_elem_of_lookup.
    destruct (matches_total tag c c' Hm) as [[|] Hb]; [|done].
    exfalso. apply (Hlast (S k) c'); [lia | done | done].
  - destruct (matches_total tag c c0 Hm) as [b Hb]. rewrite Hb.
    assert (Hrest : forall f ix,
               Augment.scan tag cands (S t) f ix = Ret (true, t + S i)).
    { intros f ix. rewrite (IH (S t) f ix i); [f_equal; f_equal; lia | done | done |].
      intros j c' Hj Hc'. apply (Hlast (S j) c'); [lia | done]. }
    destruct b; apply Hrest.
Qed.

Lemma scan_from_zero (tag : string) (cands : list string) (i : nat) :
  last_match tag cands i ->
  Augment.scan tag cands 0 false 0 = Ret (true, i).
Proof.
  intros [(c & Hc & Hm) Hlast]. rewrite scan_upper.
  rewrite (scan_last_match _ _ 0 false 0 i c); auto using toUpperCase_idem.
Qed.

(** C9. With [returnIndex = true], [hasTag] returns the position of the
    last tag of the item that matches the query, not the first, whenever
    some tag matches; [hasGrant] does the same over the granted tags. *)
Theorem hasTag_returns_last_index
    (item augment : Item) (tag grant : string) (i j : nat) :
  last_match tag (tags item) i ->
  last_match grant (augmentGrantedTags augment) j ->
  Augment.hasTag item tag true = Ret (JNum i) /\
  Augment.hasGrant augment grant true = Ret (JNum j).
Proof.
  intros Ht Hg. unfold Augment.hasTag, Augment.hasGrant.
  by rewrite (scan_from_zero _ _ _ Ht), (scan_from_zero _ _ _ Hg).
Qed.

Lemma hasTag_returns_last_index_witness :
  Augment.hasTag (mkItem 7 ["AUG_A"; "HEAVY"; "AUG_B"; "RARE"] [] [] [] [] "")
                 "aug_*" true = Ret (JNum 2) /\
  Augment.hasGrant (mkItem 8 [] [] [] [] ["A"; "B"; "A"] "") "a" true = Ret (JNum 2).
Proof.
  apply (hasTag_returns_last_index
           (mkItem 7 ["AUG_A"; "HEAVY"; "AUG_B"; "RARE"] [] [] [] [] "")
           (mkItem 8 [] [] [] [] ["A"; "B"; "A"] "") "aug_*" "a" 2 2).
  - split.
    + exists "AUG_B". split; reflexivity.
    + intros j c Hj Hc. destruct j as [|[|[|[|j]]]]; try lia.
      * injection Hc as <-. vm_compute. discriminate.
      * destruct j; discriminate.
  - split.
    + exists "A". split; reflexivity.
    + intros j c Hj Hc. destruct j as [|[|[|j]]]; try lia.
      destruct j; discriminate.
Defined.

(** C10. When the last matching tag sits at position 0, the indexed
    lookup returns the number 0; when no tag matches it returns the
    boolean false; both are falsy, so a truthiness test gives the same
    answer for a tag present at index 0 and for an absent tag. *)
Theorem hasTag_index_zero_is_falsy (present absent : Item) (tag : string) :
  last_match tag (tags present) 0 ->
  (forall c, c ∈ tags absent -> ~ matching tag c) ->
  Augment.hasTag present tag true = Ret (JNum 0) /\
  Augment.hasTag absent tag true = Ret (JBool false) /\
  truthy (JNum 0) = false /\ truthy (JBool false) = false.
Proof.
  intros Hlast Hno. unfold Augment.hasTag.
  rewrite (scan_from_zero _ _ _ Hlast). split; [done|].
  split; [|done].
  rewrite scan_upper.
  rewrite scan_no_match; auto using toUpperCase_idem.
  intros c Hc. destruct Hlast as [(c0 & _ & Hm) _].
  destruct (matches_total _ c0 c Hm) as [[|] Hb]; [|done].
  by destruct (Hno c Hc).
Qed.

Lemma hasTag_index_zero_is_falsy_witness :
  Augment.hasTag Scenario.gun "canfullauto" true = Ret (JNum 0) /\
  Augment.hasTag Scenario.plain_gun "canfullauto" true = Ret (JBool false) /\
  truthy (JNum 0) = false /\ truthy (JBool false) = false.
Proof.
  apply (hasTag_index_zero_is_falsy Scenario.gun Scenario.plain_gun "canfullauto").
  - split.
    + exists "CANFULLAUTO". split; reflexivity.
    + intros j c Hj Hc. destruct j as [|j]; [lia|]. destruct j; discriminate.
  - intros c Hc. by apply elem_of_nil in Hc.
Defined.

(** ** Patterns with the wildcard in the middle *)

Lemma first_is_star_word (s rest : string) :
  Str.all_word s = true -> (s = "" -> Str.first_is_star rest = false) ->
  Str.first_is_star (s +:+ rest) = false.
Proof.
  destruct s as [|c s]; [auto|]. rewrite app_cons, all_word_cons.
  intros [Hc _]%andb_true_iff _. apply is_word_plain in Hc. cbn. tauto.
Qed.

Lemma parse_items_lit (c : ascii) (rest : string) :
  Str.is_word c = true -> Str.first_is_star rest = false ->
  RegExp.parse_items (String c rest) =
    match RegExp.parse_items rest with
    | Ret (its, e) => Ret ((RegExp.Lit c, false) :: its, e)
    | Throw x => Throw x
    end.
Proof.
  intros (H1 & H2 & H3 & H4)%is_word_plain Hrest.
  cbn [RegExp.parse_items]. rewrite H1, H2, H3, H4.
  destruct rest as [|r rest]; [reflexivity|].
  each_ascii r; first [discriminate Hrest | reflexivity].
Qed.

Lemma parse_items_literal (s rest : string) :
  Str.all_word s = true -> Str.first_is_star rest = false ->
  RegExp.parse_items (s +:+ rest) =
    match RegExp.parse_items rest with
    | Ret (its, e) => Ret ((literal s ++ its)%list, e)
    | Throw x => Throw x
    end.
Proof.
  induction s as [|c s IH]; intros Hw Hrest.
  - rewrite app_empty_l. by destruct (RegExp.parse_items rest) as [[??]|].
  - rewrite all_word_cons in Hw. apply andb_true_iff in Hw as [Hc Hs].
    rewrite app_cons, parse_items_lit, IH by auto using first_is_star_word.
    by destruct (RegExp.parse_items rest) as [[??]|].
Qed.

Lemma match_here_star (a : RegExp.atom) (r : list (RegExp.atom * bool)) (e : bool) (s : string) :
  RegExp.match_here ((a, true) :: r) e s =
    RegExp.match_here r e s ||
    match s with
    | String c s' => RegExp.atom_ok a c && RegExp.match_here ((a, true) :: r) e s'
    | EmptyString => false
    end.
Proof. by destruct s. Qed.

Lemma match_here_literal (p : string) (r : list (RegExp.atom * bool)) (e : bool) (s : string) :
  RegExp.match_here (literal p ++ r)%list e s = true <->
  exists s1 s2, s = s1 +:+ s2 /\ Str.toUpperCase s1 = Str.toUpperCase p /\
                RegExp.match_here r e s2 = true.
Proof.
  revert s. induction p as [|c p IH]; intros s.
  - cbn [literal list_ascii_of_string map app]. split.
    + intros H. by exists "", s.
    + intros (s1 & s2 & -> & Hs1 & H). destruct s1; [done | discriminate].
  - change (literal (String c p) ++ r)%list with ((RegExp.Lit c, false) :: (literal p ++ r)%list).
    cbn [RegExp.match_here]. destruct s as [|x s].
    + split; [discriminate|].
      intros (s1 & s2 & E & Hs1 & _). destruct s1; discriminate.
    + rewrite andb_true_iff, IH. cbn [RegExp.atom_ok]. rewrite Ascii.eqb_eq. split.
      * intros (Hx & s1 & s2 & -> & Hs1 & H). exists (String x s1), s2.
        rewrite app_cons. cbn [Str.toUpperCase]. by rewrite Hx, Hs1.
      * intros (s1 & s2 & E & Hs1 & H). destruct s1 as [|y s1]; [discriminate|].
        rewrite app_cons in E. injection E as -> ->.
        cbn [Str.toUpperCase] in Hs1. injection Hs1 as Hy Hs1. eauto 6.
Qed.

Lemma match_here_word_star (r : list (RegExp.atom * bool)) (e : bool) (s : string) :
  RegExp.match_here ((RegExp.Word, true) :: r) e s = true <->
  exists mid s2, s = mid +:+ s2 /\ Str.all_word mid = true /\
                 RegExp.match_here r e s2 = true.
Proof.
  induction s as [|c s IH]; rewrite match_here_star, orb_true_iff.
  - split.
    + intros [H|?]; [|done]. by exists "", "".
    + intros (mid & s2 & E & _ & H). left.
      destruct mid; [|discriminate]. rewrite app_empty_l in E. by subst s2.
  - rewrite andb_true_iff, IH. cbn [RegExp.atom_ok]. split.
    + intros [H|(Hc & mid & s2 & -> & Hmid & H)].
      * by exists "", (String c s).
      * exists (String c mid), s2. rewrite app_cons, all_word_cons, Hc. auto.
    + intros (mid & s2 & E & Hmid & H). destruct mid as [|x mid].
      * left. rewrite app_empty_l in E. by subst s2.
      * right. rewrite app_cons in E. injection E as -> ->.
        rewrite all_word_cons in Hmid. apply andb_true_iff in Hmid as [??]. eauto 6.
Qed.

Lemma has_star_middle (A B : string) : Str.has_star (A +:+ "*" +:+ B) = true.
Proof.
  induction A as [|c A IH]; [reflexivity|].
  rewrite app_cons. cbn [Str.has_star]. by rewrite IH, orb_true_r.
Qed.

Lemma last_is_star_word (s : string) :
  s <> "" -> Str.all_word s = true -> Str.last_is_star s = false.
Proof.
  induction s as [|c s IH]; [done|]. intros _. rewrite all_word_cons.
  intros [Hc Hs]%andb_true_iff. destruct s as [|c' s].
  - apply is_word_plain in Hc. cbn. tauto.
  - change (Str.last_is_star (String c' s) = false). by apply IH.
Qed.

Lemma last_is_star_app (s1 s2 : string) :
  s2 <> "" -> Str.last_is_star (s1 +:+ s2) = Str.last_is_star s2.
Proof.
  intros Hs2. induction s1 as [|c s1 IH]; [done|].
  rewrite app_cons. destruct (s1 +:+ s2) eqn:E.
  - destruct s1; [|discriminate]. by rewrite app_empty_l in E.
  - done.
Qed.

Lemma replace_star_middle (A B by_ : string) :
  Str.all_word A = true ->
  Str.replace_star (A +:+ "*" +:+ B) by_ = A +:+ by_ +:+ B.
Proof.
  induction A as [|c A IH]; [reflexivity|].
  rewrite all_word_cons. intros [Hc HA]%andb_true_iff.
  rewrite !(app_cons c A). cbn [Str.replace_star].
  apply is_word_plain in Hc as (_ & -> & _). by rewrite IH.
Qed.

Lemma wildcardRegex_middle (A B : string) :
  A <> "" -> B <> "" -> Str.all_word A = true -> Str.all_word B = true ->
  RegExp.new (Augment.wildcardRegex (A +:+ "*" +:+ B)) =
    Ret (RegExp.mk true (literal A ++ (RegExp.Word, true) :: literal B ++ [])%list true).
Proof.
  intros HA HB HwA HwB. unfold Augment.wildcardRegex.
  rewrite has_star_middle, first_is_star_word by done.
  rewrite last_is_star_app by (by destruct B).
  assert (Str.last_is_star ("*" +:+ B) = false) as ->.
  { rewrite (last_is_star_app "*" B HB). by apply last_is_star_word. }
  rewrite replace_star_middle by done.
  change ("^" +:+ ?s) with (String "^" s). cbn [RegExp.new].
  rewrite !app_assoc_s, parse_items_literal by done.
  change (RegExp.parse_items ("\w*" +:+ B +:+ "$"))
    with (match RegExp.parse_items (B +:+ "$") with
          | Ret (its, e) => Ret ((RegExp.Word, true) :: its, e)
          | Throw x => Throw x
          end).
  by rewrite parse_items_literal.
Qed.

Lemma matches_middle (A B c : string) :
  A <> "" -> B <> "" -> Str.all_word A = true -> Str.all_word B = true ->
  exists b, Augment.matches (Str.toUpperCase (A +:+ "*" +:+ B)) c = Ret b /\
            (b = true <-> spans A B c).
Proof.
  intros HA HB HwA HwB. unfold Augment.matches.
  rewrite !toUpperCase_app. change (Str.toUpperCase "*") with "*".
  rewrite wildcardRegex_middle;
    [| by destruct A | by destruct B
     | by rewrite all_word_toUpperCase | by rewrite all_word_toUpperCase ].
  eexists. split; [reflexivity|]. unfold RegExp.exec. cbn [RegExp.from_start RegExp.items RegExp.to_end].
  rewrite match_here_literal. unfold spans. split.
  - intros (s1 & s2 & E & Hs1 & (mid & s3 & -> & Hmid & H)%match_here_word_star).
    apply match_here_literal in H as (s4 & s5 & -> & Hs4 & H).
    destruct s5; [|discriminate]. rewrite app_empty_r in E.
    exists (Str.toUpperCase mid). rewrite all_word_toUpperCase. split; [done|].
    rewrite <- (toUpperCase_idem c), E, !toUpperCase_app, Hs1, Hs4.
    by rewrite !toUpperCase_idem.
  - intros (mid & Hmid & ->). exists (Str.toUpperCase A), (mid +:+ Str.toUpperCase B).
    split; [done|]. split; [done|].
    apply match_here_word_star. exists mid, (Str.toUpperCase B).
    split; [done|]. split; [done|].
    apply match_here_literal. exists (Str.toUpperCase B), "".
    by rewrite app_empty_r.
Qed.

Lemma baseHasReqs_upper (req : string) (reqs : list string) :
  Augment.baseHasReqs req reqs = Augment.baseHasReqs (Str.toUpperCase req) reqs.
Proof. destruct reqs; cbn; [reflexivity|]. by rewrite toUpperCase_idem. Qed.

Section Pointwise.

Variables (tag : string) (P : string -> Prop).
Hypothesis tag_stored : Str.toUpperCase tag = tag.
Hypothesis decided :
  forall c, exists b, Augment.matches tag c = Ret b /\ (b = true <-> P c).

Lemma baseHasReqs_pointwise (reqs : list string) :
  exists b, Augment.baseHasReqs tag reqs = Ret b /\
            (b = true <-> exists c, c ∈ reqs /\ P c).
Proof.
  induction reqs as [|c reqs (b & IH & Hb)]; cbn.
  - exists false. split; [done|]. split; [done|].
    intros (c & Hc & _). by apply elem_of_nil in Hc.
  - rewrite tag_stored. destruct (decided c) as ([|] & -> & Hc).
    + exists true. split; [done|]. split; [|done].
      intros _. exists c. split; [left | by apply Hc].
    + exists b. split; [done|]. rewrite Hb. split.
      * intros (c' & Hin & HP). exists c'. split; [by right | done].
      * intros (c' & [->|Hin]%elem_of_cons & HP); [|eauto].
        apply Hc in HP. discriminate.
Qed.

Lemma scan_pointwise (cands : list string) (t : nat) (found : bool) (index : nat) :
  exists b ix, Augment.scan tag cands t found index = Ret (b, ix) /\
               (b = true <-> found = true \/ exists c, c ∈ cands /\ P c).
Proof.
  revert t found index. induction cands as [|c cands IH]; intros t found index; cbn.
  - exists found, index. split; [done|]. split; [auto|].
    intros [?|(c & Hc & _)]; [done | by apply elem_of_nil in Hc].
  - rewrite tag_stored. destruct (decided c) as ([|] & -> & Hc).
    + destruct (IH (S t) true t) as (b & ix & -> & Hb).
      exists b, ix. split; [done|]. rewrite Hb. split; [|auto].
      intros _. right. exists c. split; [left | by apply Hc].
    + destruct (IH (S t) found index) as (b & ix & -> & Hb).
      exists b, ix. split; [done|]. rewrite Hb. split.
      * intros [?|(c' & Hin & HP)]; [auto|]. right. exists c'. split; [by right | done].
      * intros [?|(c' & [->|Hin]%elem_of_cons & HP)]; [auto | | eauto].
        apply Hc in HP. discriminate.
Qed.

End Pointwise.

(** C6 (as stated, refuted).  The candidate ["A-B"] starts with [A] and
    ends with [B], with a character in between, yet the pattern ["A*B"]
    does not match it. *)
Lemma middle_wildcard_rejects_other_characters :
  ~ (Augment.baseHasReqs "A*B" ["A-B"] = Ret true <->
     exists mid, Str.toUpperCase "A-B" =
                 Str.toUpperCase "A" +:+ mid +:+ Str.toUpperCase "B").
Proof.
  intros [_ H].
  assert (Hm : Augment.baseHasReqs "A*B" ["A-B"] = Ret true)
    by (apply H; by exists "-").
  vm_compute in Hm. discriminate.
Qed.

(** C6 (amended).  For a pattern [A*B] with [A] and [B] non-empty runs
    of word characters, the matcher answers true exactly when some
    candidate is [A], then any word characters (letters, digits,
    underscore; possibly none), then [B], letter case ignored. *)
Theorem middle_wildcard_matches_word_characters
    (A B : string) (reqs : list string) (item : Item) :
  A <> "" -> B <> "" -> Str.all_word A = true -> Str.all_word B = true ->
  (Augment.baseHasReqs (A +:+ "*" +:+ B) reqs = Ret true <->
     exists c, c ∈ reqs /\ spans A B c) /\
  (Augment.hasTag item (A +:+ "*" +:+ B) false = Ret (JBool true) <->
     exists c, c ∈ tags item /\ spans A B c).
Proof.
  intros HA HB HwA HwB.
  pose proof (fun c => matches_middle A B c HA HB HwA HwB) as Hdec.
  pose proof (toUpperCase_idem (A +:+ "*" +:+ B)) as Hup.
  split.
  - rewrite baseHasReqs_upper.
    destruct (baseHasReqs_pointwise _ _ Hup Hdec reqs) as (b & -> & Hb).
    rewrite <- Hb. split; congruence.
  - unfold Augment.hasTag. rewrite scan_upper.
    destruct (scan_pointwise _ _ Hup Hdec (tags item) 0 false 0) as (b & ix & -> & Hb).
    cbn. rewrite andb_false_r.
    transitivity (b = true); [split; congruence|].
    rewrite Hb. split; [intros [?|?]; [done | done] | auto].
Qed.

Lemma middle_wildcard_matches_word_characters_witness :
  (Augment.baseHasReqs ("aug" +:+ "*" +:+ "ed") ["AUG_HACKED"] = Ret true <->
     exists c, c ∈ ["AUG_HACKED"] /\ spans "aug" "ed" c) /\
  (Augment.hasTag Scenario.gun ("aug" +:+ "*" +:+ "ed") false = Ret (JBool true) <->
     exists c, c ∈ tags Scenario.gun /\ spans "aug" "ed" c).
Proof.
  apply (middle_wildcard_matches_word_characters "aug" "ed" ["AUG_HACKED"] Scenario.gun);
    [discriminate | discriminate | reflexivity | reflexivity].
Defined.

(** ** Tags as lists *)

Lemma indexOf_remove1 (x : string) (l : list string) :
  match Augment.indexOf x l with
  | Some i => delete i l
  | None => l
  end = remove1 x l.
Proof.
  induction l as [|y l IH]; [reflexivity|]. cbn.
  destruct (String.eqb y x); [reflexivity|].
  destruct (Augment.indexOf x l); cbn; by rewrite <- IH.
Qed.

Lemma removeTag_eq (item : Item) (tag : string) :
  Augment.removeTag item tag = set_tags item (remove1 (Str.toUpperCase tag) (tags item)).
Proof.
  unfold Augment.removeTag. rewrite <- indexOf_remove1.
  destruct (Augment.indexOf _ _); [reflexivity | by rewrite set_tags_same].
Qed.

Lemma addTag_eq (item : Item) (tag : string) :
  Augment.addTag item tag =
  set_tags item (remove1 (Str.toUpperCase tag) (tags item) ++ [Str.toUpperCase tag])%list.
Proof. unfold Augment.addTag. by rewrite removeTag_eq, toUpperCase_idem. Qed.

Lemma addGrantedTags_eq (item augment : Item) :
  Augment.addGrantedTags item augment =
  set_tags item (add_all (map namespaced (augmentGrantedTags augment)) (tags item)).
Proof.
  unfold Augment.addGrantedTags, add_all.
  generalize (augmentGrantedTags augment) as gs. intros gs. revert item.
  induction gs as [|g gs IH]; intros item; cbn; [by rewrite set_tags_same|].
  by rewrite IH, addTag_eq.
Qed.

Lemma remove1_absent (x : string) (l : list string) : x ∉ l -> remove1 x l = l.
Proof.
  induction l as [|y l IH]; [done|]. intros Hx. cbn.
  destruct (String.eqb y x) eqn:E.
  - apply String.eqb_eq in E. subst y. exfalso. apply Hx. left.
  - f_equal. apply IH. intros ?. apply Hx. by right.
Qed.

Lemma remove1_app_absent (x : string) (l d : list string) :
  x ∉ l -> remove1 x (l ++ d)%list = (l ++ remove1 x d)%list.
Proof.
  induction l as [|y l IH]; [done|]. intros Hx. cbn.
  destruct (String.eqb y x) eqn:E.
  - apply String.eqb_eq in E. subst y. exfalso. apply Hx. left.
  - f_equal. apply IH. intros ?. apply Hx. by right.
Qed.

Lemma elem_of_remove1 (x y : string) (l : list string) : y ∈ remove1 x l -> y ∈ l.
Proof.
  induction l as [|z l IH]; [done|]. cbn. destruct (String.eqb z x).
  - by right.
  - intros [->|?]%elem_of_cons; [left | right; auto].
Qed.

Lemma NoDup_remove1 (x : string) (l : list string) :
  NoDup l -> NoDup (remove1 x l) /\ x ∉ remove1 x l.
Proof.
  induction 1 as [|y l Hy Hl [IH1 IH2]]; cbn.
  - split; [constructor | apply not_elem_of_nil].
  - destruct (String.eqb y x) eqn:E.
    + apply String.eqb_eq in E. by subst y.
    + apply String.eqb_neq in E. split.
      * constructor; [|done]. intros ?%elem_of_remove1. done.
      * intros [?|?]%elem_of_cons; [congruence | done].
Qed.

Lemma remove_all_absent (ns l : list string) :
  (forall n, n ∈ ns -> n ∉ l) -> remove_all ns l = l.
Proof.
  unfold remove_all. induction ns as [|n ns IH]; [done|]. intros H. cbn.
  rewrite remove1_absent by (apply H; left). apply IH. intros ??. apply H. by right.
Qed.

Lemma remove_all_exhausts (ns d : list string) :
  NoDup d -> (forall x, x ∈ d -> x ∈ ns) -> remove_all ns d = [].
Proof.
  unfold remove_all. revert d. induction ns as [|n ns IH]; intros d Hd Hsub.
  - destruct d as [|x d]; [done|]. specialize (Hsub x). by rewrite elem_of_nil, elem_of_cons in Hsub; exfalso; apply Hsub; left.
  - cbn. destruct (NoDup_remove1 n d Hd) as [Hd' Hn]. apply IH; [done|].
    intros x Hx. pose proof (elem_of_remove1 _ _ _ Hx) as Hx'.
    apply Hsub in Hx'. apply elem_of_cons in Hx' as [->|?]; [done | done].
Qed.

Lemma add_all_shape (ns l d : list string) :
  (forall n, n ∈ ns -> n ∉ l) -> NoDup d ->
  exists d', add_all ns (l ++ d)%list = (l ++ d')%list /\ NoDup d' /\
             (forall x, x ∈ d' -> x ∈ d \/ x ∈ ns).
Proof.
  unfold add_all. revert d. induction ns as [|n ns IH]; intros d Hl Hd.
  - exists d. auto.
  - cbn. rewrite remove1_app_absent by (apply Hl; left). rewrite <- app_assoc.
    destruct (NoDup_remove1 n d Hd) as [Hd' Hn].
    destruct (IH (remove1 n d ++ [n])%list) as (d' & -> & Hnd & Hsub).
    + intros ??. apply Hl. by right.
    + apply NoDup_app. split; [done|]. split; [|apply NoDup_singleton].
      intros x Hx ->%list_elem_of_singleton. done.
    + exists d'. split; [done|]. split; [done|].
      intros x Hx. destruct (Hsub x Hx) as [[?%elem_of_remove1| ->%list_elem_of_singleton]%elem_of_app|?];
        [by left | right; left | right; by right].
Qed.

Lemma remove_all_app_absent (ns l d : list string) :
  (forall n, n ∈ ns -> n ∉ l) -> remove_all ns (l ++ d)%list = (l ++ remove_all ns d)%list.
Proof.
  unfold remove_all. revert d. induction ns as [|n ns IH]; intros d Hl; [done|].
  cbn. rewrite remove1_app_absent by (apply Hl; left). apply IH.
  intros ??. apply Hl. by right.
Qed.

Lemma remove_all_add_all (ns l : list string) :
  (forall n, n ∈ ns -> n ∉ l) -> remove_all ns (add_all ns l) = l.
Proof.
  intros Hl. destruct (add_all_shape ns l [] Hl) as (d & E & Hd & Hsub);
    [constructor|].
  rewrite app_nil_r in E. rewrite E, remove_all_app_absent by done.
  rewrite remove_all_exhausts; [by rewrite app_nil_r | done |].
  intros x Hx. destruct (Hsub x Hx) as [?%elem_of_nil|?]; done.
Qed.

(** ** Slot entries *)

Lemma take_digits_of_uint (d : Decimal.uint) :
  Str.take_digits (NilEmpty.string_of_uint d) = NilEmpty.string_of_uint d.
Proof. induction d; cbn; by f_equal. Qed.

Lemma match_digits_of_uint (d : Decimal.uint) :
  d <> Decimal.Nil ->
  Str.match_digits (NilEmpty.string_of_uint d) = Some (NilEmpty.string_of_uint d).
Proof.
  destruct d; [done | ..]; intros _;
    change (NilEmpty.string_of_uint ?x) with (NilEmpty.string_of_uint x);
    cbn; by rewrite take_digits_of_uint.
Qed.

Lemma to_uint_not_nil (n : nat) : Nat.to_uint n <> Decimal.Nil.
Proof.
  intros E. pose proof (Unsigned.of_to n) as H. rewrite E in H.
  cbn in H. subst n. discriminate E.
Qed.

Lemma match_digits_entry (n : nat) :
  Str.match_digits ("item " +:+ Str.of_number n) = Some (Str.of_number n).
Proof.
  change (Str.match_digits (Str.of_number n) = Some (Str.of_number n)).
  apply match_digits_of_uint, to_uint_not_nil.
Qed.

Lemma to_number_of_number (n : nat) : Str.to_number (Str.of_number n) = n.
Proof. unfold Str.to_number, Str.of_number. by rewrite NilEmpty.usu, Unsigned.of_to. Qed.

Lemma entry_not_none (n : nat) : String.eqb ("item " +:+ Str.of_number n) "none" = false.
Proof. reflexivity. Qed.

Lemma dataItem_entry (data : list (option Item)) (e : Item) :
  data !! id e = Some (Some e) ->
  Augment.dataItem data ("item " +:+ Str.of_number (id e)) = Some e.
Proof.
  intros H. unfold Augment.dataItem.
  rewrite match_digits_entry, to_number_of_number, String.eqb_refl, H. done.
Qed.

Lemma is_other_entry (e : Item) :
  Augment.is_other ("item " +:+ Str.of_number (id e)) e = false.
Proof.
  unfold Augment.is_other.
  by rewrite match_digits_entry, to_number_of_number, Nat.eqb_refl, andb_false_r.
Qed.

(** ** Removal of granted tags when no other slot vetoes it *)

Lemma scanSlots_quiet (data : list (option Item)) (slots : list string)
    (augment : Item) (grant : string) :
  Forall (fun entry => Augment.is_other entry augment = false \/ quiet data augment entry) slots ->
  grant ∈ augmentGrantedTags augment ->
  Augment.scanSlots data slots augment grant true = Ret true.
Proof.
  intros Hq Hg. induction Hq as [|entry slots Hentry _ IH]; [done|]. cbn.
  destruct (Augment.is_other entry augment) eqn:Hother; [|done].
  destruct Hentry as [?|[->|(other & -> & Hsilent)]]; [done | done |].
  by rewrite (Hsilent grant Hg).
Qed.

Lemma removeGrantedTags_from_quiet (data : list (option Item)) (augment : Item)
    (grants : list string) (item : Item) :
  Forall (fun entry => Augment.is_other entry augment = false \/ quiet data augment entry)
         (augmentSlotItems item) ->
  (forall g, g ∈ grants -> g ∈ augmentGrantedTags augment) ->
  Augment.removeGrantedTags_from data augment grants true item =
    (set_tags item (remove_all (map namespaced grants) (tags item)), Ret tt).
Proof.
  revert item. induction grants as [|g grants IH]; intros item Hq Hsub.
  - cbn. by rewrite set_tags_same.
  - cbn [Augment.removeGrantedTags_from]. unfold andThen, read, pure_, update.
    rewrite scanSlots_quiet by (done || (apply Hsub; left)).
    rewrite IH.
    + rewrite removeTag_eq. done.
    + by rewrite removeTag_eq.
    + intros ??. apply Hsub. by right.
Qed.

Lemma removeGrantedTags_quiet (data : list (option Item)) (augment item : Item) :
  Forall (fun entry => Augment.is_other entry augment = false \/ quiet data augment entry)
         (augmentSlotItems item) ->
  Augment.removeGrantedTags data (Some augment) item =
    (set_tags item (remove_all (map namespaced (augmentGrantedTags augment)) (tags item)),
     Ret tt).
Proof. intros Hq. by apply removeGrantedTags_from_quiet. Qed.

(** ** Install followed by removal *)

Lemma apply_into_empty_slot (w : World) (e : Item) (slotId gain : nat) (ty : string) :
  Augment.checkRequirements e (host w) = true ->
  augmentSlotItems (host w) !! slotId = Some "none" ->
  augmentSlots (host w) !! slotId = Some ty ->
  exists party,
    ItemManager.applyAugmentEffects (Some e) slotId gain w =
      (mkWorld (dataItems w)
         (set_augmentSlotItems
            (set_tags (host w)
               (add_all (map namespaced (augmentGrantedTags e)) (tags (host w))))
            (<[slotId := "item " +:+ Str.of_number (id e)]> (augmentSlotItems (host w))))
         party (augmentRejectionWindow w),
       Ret tt).
Proof.
  intros Hreq Hslot Hty.
  unfold ItemManager.applyAugmentEffects, andThen, on_host, read, unit_, update.
  cbn. rewrite Hreq. cbn. rewrite addGrantedTags_eq. cbn.
  rewrite bool_decide_eq_true_2 by done. cbn.
  unfold ItemManager.installAugmentToSlot, andThen, on_host, read, unit_, update. cbn.
  rewrite Hty. cbn. eexists. reflexivity.
Qed.

Lemma augmentInSlot_occupied (w : World) (e : Item) (slotId : nat) :
  dataItems w !! id e = Some (Some e) ->
  augmentSlotItems (host w) !! slotId = Some ("item " +:+ Str.of_number (id e)) ->
  ItemManager.augmentInSlot slotId w = (w, Ret (Some e)).
Proof.
  intros Hdata Hslot. unfold ItemManager.augmentInSlot, andThen, read, unit_.
  rewrite Hslot, entry_not_none, dataItem_entry by done. reflexivity.
Qed.

Lemma remove_quiet (w : World) (e : Item) (slotId : nat) (keep : bool) (ty : string) :
  dataItems w !! id e = Some (Some e) ->
  augmentSlotItems (host w) !! slotId = Some ("item " +:+ Str.of_number (id e)) ->
  augmentSlots (host w) !! slotId = Some ty ->
  Forall (fun entry => Augment.is_other entry e = false \/ quiet (dataItems w) e entry)
         (augmentSlotItems (host w)) ->
  exists party,
    Script.removeAugmentFromSlot slotId keep w =
      (mkWorld (dataItems w)
         (set_augmentSlotItems
            (set_tags (host w)
               (remove_all (map namespaced (augmentGrantedTags e))
                  (remove_all (map namespaced (augmentGrantedTags e)) (tags (host w)))))
            (<[slotId := "none"]> (augmentSlotItems (host w))))
         party (augmentRejectionWindow w),
       Ret (Some e)).
Proof.
  intros Hdata Hslot Hty Hq.
  unfold Script.removeAugmentFromSlot, ItemManager.removeAugmentFromSlot,
    ItemManager.augmentInSlot, ItemManager.gainItem,
    andThen, on_host, read, unit_, update.
  cbn. rewrite Hslot, entry_not_none, dataItem_entry by done.
  rewrite removeGrantedTags_quiet by done. cbn.
  rewrite Hslot, entry_not_none, dataItem_entry by done.
  rewrite removeGrantedTags_quiet by done. cbn.
  rewrite Hty. cbn.
  rewrite Hslot, entry_not_none, dataItem_entry by done.
  rewrite orb_true_r. cbn. eexists. reflexivity.
Qed.

Lemma andThen_ret {S A B} (m : M S A) (k : A -> M S B) (s s' : S) (a : A) :
  m s = (s', Ret a) -> andThen m k s = k a s'.
Proof. intros H. unfold andThen. by rewrite H. Qed.

Lemma im_remove_quiet (w : World) (e : Item) (slotId : nat) (ty : string) :
  dataItems w !! id e = Some (Some e) ->
  augmentSlotItems (host w) !! slotId = Some ("item " +:+ Str.of_number (id e)) ->
  augmentSlots (host w) !! slotId = Some ty ->
  Forall (fun entry => Augment.is_other entry e = false \/ quiet (dataItems w) e entry)
         (augmentSlotItems (host w)) ->
  ItemManager.removeAugmentFromSlot slotId w =
    (set_host w (set_tags (host w)
       (remove_all (map namespaced (augmentGrantedTags e)) (tags (host w)))),
     Ret (Some e)).
Proof.
  intros Hdata Hslot Hty Hq. unfold ItemManager.removeAugmentFromSlot.
  rewrite (andThen_ret _ _ _ _ _ (augmentInSlot_occupied w e slotId Hdata Hslot)).
  rewrite (andThen_ret _ _ w w w) by reflexivity.
  erewrite andThen_ret; last first.
  { unfold on_host. by rewrite removeGrantedTags_quiet. }
  erewrite andThen_ret; last reflexivity.
  cbn [host set_host set_tags augmentSlots]. rewrite Hty.
  erewrite andThen_ret; last by apply (augmentInSlot_occupied _ e).
  reflexivity.
Qed.

Lemma ui_remove_quiet (w : World) (e : Item) (slotId gain : nat) (ty : string) :
  dataItems w !! id e = Some (Some e) ->
  augmentSlotItems (host w) !! slotId = Some ("item " +:+ Str.of_number (id e)) ->
  augmentSlots (host w) !! slotId = Some ty ->
  Forall (fun entry => Augment.is_other entry e = false \/ quiet (dataItems w) e entry)
         (augmentSlotItems (host w)) ->
  exists w' r,
    ItemManager.applyAugmentEffects None slotId gain w = (w', r) /\
    host w' =
      set_augmentSlotItems
        (set_tags (host w)
           (remove_all (map namespaced (augmentGrantedTags e)) (tags (host w))))
        (<[slotId := "none"]> (augmentSlotItems (host w))) /\
    (is_Some (augmentRejectionWindow w) -> r = Ret tt).
Proof.
  intros Hdata Hslot Hty Hq. unfold ItemManager.applyAugmentEffects.
  erewrite andThen_ret; last reflexivity.
  rewrite bool_decide_eq_false_2 by apply is_Some_None. cbn [orb negb].
  erewrite andThen_ret; last first.
  { erewrite andThen_ret; last (unfold on_host, read; reflexivity).
    cbn [host set_host]. rewrite Hslot.
    rewrite bool_decide_eq_false_2 by (intros [=]). cbn [negb].
    erewrite andThen_ret; last first.
    { erewrite andThen_ret; last by eapply (im_remove_quiet _ e); rewrite ?set_host_same.
      reflexivity. }
    erewrite andThen_ret; last first.
    { unfold ItemManager.installAugmentToSlot.
      erewrite andThen_ret; last reflexivity.
      cbn. rewrite Hty. reflexivity. }
    reflexivity. }
  unfold Augment.showRejection, andThen, read, update, raise. cbn.
  destruct (augmentRejectionWindow w) as [win|]; eexists _, _;
    (split; [reflexivity|]); (split; [reflexivity|]).
  - done.
  - by intros ?%is_Some_None.
Qed.

(** C4 (as stated, refuted).  A gun that already carries the tag
    AUG_HACKED, both slots empty: installing the augment granting HACKED
    into slot 0 and removing it at once returns the slot to empty but
    leaves the gun without AUG_HACKED. *)
Lemma install_then_remove_drops_a_prior_tag :
  let before := set_tags Scenario.gun ["CANFULLAUTO"; "AUG_HACKED"] in
  exists w1 w2,
    ItemManager.applyAugmentEffects (Some Scenario.hack) 0 1 (Scenario.world before)
      = (w1, Ret tt) /\
    Script.removeAugmentFromSlot 0 false w1 = (w2, Ret (Some Scenario.hack)) /\
    augmentSlotItems (host w2) !! 0 = Some "none" /\
    "AUG_HACKED" ∈ tags before /\
    "AUG_HACKED" ∉ tags (host w2).
Proof.
  eexists _, _. split; [vm_compute; reflexivity|].
  split; [vm_compute; reflexivity|].
  split; [reflexivity|]. split.
  - right. left.
  - cbn. intros [?|?%elem_of_nil]%elem_of_cons; [discriminate | done].
Qed.

(** C4 (amended).  For a host with an empty slot, whose tags hold none
    of the augment's namespaced granted tags and whose slots hold no
    augment granting one of them: a successful install into the slot
    followed at once by removal gives back the host exactly as it was,
    tags and slot array alike (the slot is empty again).  This holds for
    removal by the script call and for removal from the menu
    ([applyAugmentEffects] without an augment). *)
Theorem install_then_remove_restores_host
    (w : World) (e : Item) (slotId gain : nat) (keep : bool) (ty : string) :
  dataItems w !! id e = Some (Some e) ->
  Augment.checkRequirements e (host w) = true ->
  augmentSlotItems (host w) !! slotId = Some "none" ->
  augmentSlots (host w) !! slotId = Some ty ->
  (forall g, g ∈ augmentGrantedTags e -> namespaced g ∉ tags (host w)) ->
  Forall (quiet (dataItems w) e) (augmentSlotItems (host w)) ->
  exists w1 w2 w3 r,
    ItemManager.applyAugmentEffects (Some e) slotId gain w = (w1, Ret tt) /\
    augmentSlotItems (host w1) !! slotId = Some ("item " +:+ Str.of_number (id e)) /\
    Script.removeAugmentFromSlot slotId keep w1 = (w2, Ret (Some e)) /\
    host w2 = host w /\
    ItemManager.applyAugmentEffects None slotId gain w1 = (w3, r) /\
    host w3 = host w /\
    (is_Some (augmentRejectionWindow w) -> r = Ret tt).
Proof.
  intros Hdata Hreq Hslot Hty Hfresh Hq.
  destruct (apply_into_empty_slot w e slotId gain ty Hreq Hslot Hty) as [p1 E1].
  pose proof (lookup_lt_Some _ _ _ Hslot) as Hlt.
  match type of E1 with _ = (?x, _) => set (w1 := x) in E1 end.
  assert (Hocc : augmentSlotItems (host w1) !! slotId =
                 Some ("item " +:+ Str.of_number (id e)))
    by (by apply list_lookup_insert_eq).
  assert (Hq1 : Forall (fun entry => Augment.is_other entry e = false \/
                                     quiet (dataItems w1) e entry)
                       (augmentSlotItems (host w1))).
  { cbn. apply Forall_insert; [|left; apply is_other_entry].
    eapply Forall_impl; [exact Hq|]. auto. }
  assert (Hns : forall n, n ∈ map namespaced (augmentGrantedTags e) -> n ∉ tags (host w)).
  { intros n (g & -> & Hg)%list_elem_of_fmap. auto. }
  destruct (remove_quiet w1 e slotId keep ty Hdata Hocc Hty Hq1) as [p2 E2].
  destruct (ui_remove_quiet w1 e slotId gain ty Hdata Hocc Hty Hq1)
    as (w3 & r & E3 & Hw3 & Hr).
  eexists w1, _, w3, r.
  split; [exact E1|]. split; [exact Hocc|]. split; [exact E2|].
  split; [|split; [exact E3|split; [|exact Hr]]].
  - cbn. rewrite list_insert_insert_eq, (list_insert_id _ _ _ Hslot).
    rewrite remove_all_add_all, remove_all_absent by done.
    by destruct (host w).
  - rewrite Hw3. cbn. rewrite list_insert_insert_eq, (list_insert_id _ _ _ Hslot).
    rewrite remove_all_add_all by done.
    by destruct (host w).
Qed.

Lemma install_then_remove_restores_host_witness :
  exists w1 w2 w3 r,
    ItemManager.applyAugmentEffects (Some Scenario.hack) 0 1 (Scenario.world Scenario.gun)
      = (w1, Ret tt) /\
    augmentSlotItems (host w1) !! 0 = Some ("item " +:+ Str.of_number 3) /\
    Script.removeAugmentFromSlot 0 false w1 = (w2, Ret (Some Scenario.hack)) /\
    host w2 = Scenario.gun /\
    ItemManager.applyAugmentEffects None 0 1 w1 = (w3, r) /\
    host w3 = Scenario.gun /\
    (is_Some (Some (mkWindow "" false)) -> r = Ret tt).
Proof.
  apply (install_then_remove_restores_host (Scenario.world Scenario.gun)
           Scenario.hack 0 1 false "Gun Software").
  - reflexivity.
  - reflexivity.
  - reflexivity.
  - reflexivity.
  - intros g ->%list_elem_of_singleton [?|?%elem_of_nil]%elem_of_cons;
      [discriminate | done].
  - repeat constructor.
Defined.

(** ** Installing into an empty slot *)

Lemma elem_of_remove1_ne (x y : string) (l : list string) :
  y ∈ l -> y <> x -> y ∈ remove1 x l.
Proof.
  induction l as [|z l IH]; [done|]. cbn. intros [->|Hin]%elem_of_cons Hne.
  - destruct (String.eqb z x) eqn:E; [by apply String.eqb_eq in E | left].
  - destruct (String.eqb z x); [done | right; auto].
Qed.

Lemma add_all_elem (ns l : list string) (n : string) :
  n ∈ add_all ns l <-> n ∈ l \/ n ∈ ns.
Proof.
  unfold add_all. revert l. induction ns as [|m ns IH]; intros l; cbn.
  - split; [auto | intros [?|?%elem_of_nil]; done].
  - rewrite IH, elem_of_app, list_elem_of_singleton, elem_of_cons. split.
    + intros [[?%elem_of_remove1|?]|?]; auto.
    + intros [Hin|[->|?]]; auto.
      destruct (decide (n = m)) as [->|Hne]; [auto|].
      left. left. by apply elem_of_remove1_ne.
Qed.

Lemma add_all_NoDup (ns l : list string) : NoDup l -> NoDup (add_all ns l).
Proof.
  unfold add_all. revert l. induction ns as [|m ns IH]; intros l Hl; [done|].
  cbn. apply IH. destruct (NoDup_remove1 m l Hl) as [Hnd Hm].
  apply NoDup_app. split; [done|]. split; [|apply NoDup_singleton].
  intros x Hx ->%list_elem_of_singleton. done.
Qed.

(** Installing into an empty slot after a successful requirement
    evaluation: every namespaced granted tag is on the host afterwards,
    tags that were there stay, no duplicate is created, and the slot
    holds the augment. *)
Lemma install_into_empty_slot_grants
    (w : World) (e : Item) (slotId gain : nat) (ty : string) :
  Augment.checkRequirements e (host w) = true ->
  augmentSlotItems (host w) !! slotId = Some "none" ->
  augmentSlots (host w) !! slotId = Some ty ->
  exists w1,
    ItemManager.applyAugmentEffects (Some e) slotId gain w = (w1, Ret tt) /\
    (forall t, t ∈ tags (host w1) <->
               t ∈ tags (host w) \/ t ∈ map namespaced (augmentGrantedTags e)) /\
    (NoDup (tags (host w)) -> NoDup (tags (host w1))) /\
    augmentSlotItems (host w1) !! slotId = Some ("item " +:+ Str.of_number (id e)).
Proof.
  intros Hreq Hslot Hty.
  destruct (apply_into_empty_slot w e slotId gain ty Hreq Hslot Hty) as [p1 E1].
  eexists. split; [exact E1|]. cbn. split; [|split].
  - intros t. apply add_all_elem.
  - apply add_all_NoDup.
  - apply list_lookup_insert_eq. by eapply lookup_lt_Some.
Qed.

(** Scenario A of the specification. *)
Lemma scenario_A :
  exists party,
    ItemManager.applyAugmentEffects (Some Scenario.hack) 0 1 (Scenario.world Scenario.gun) =
      (mkWorld Scenario.database
         (mkItem 3000 ["CANFULLAUTO"; "AUG_HACKED"] ["Gun Software"; "Gun Software"]
                 ["item 3"; "none"] [] [] "")
         party (Some (mkWindow "" false)),
       Ret tt).
Proof. eexists. vm_compute. reflexivity. Qed.

(** ** Defects of the lifecycle, evaluated *)

Lemma removeAugmentFromSlot_empty (w : World) (slotId : nat) (gain : bool) :
  augmentSlotItems (host w) !! slotId = Some "none" ->
  Script.removeAugmentFromSlot slotId gain w = (w, Throw TypeError) /\
  ItemManager.removeAugmentFromSlot slotId w = (w, Throw TypeError).
Proof.
  intros Hslot.
  unfold Script.removeAugmentFromSlot, ItemManager.removeAugmentFromSlot,
    ItemManager.augmentInSlot, andThen, on_host, read, unit_, raise.
  cbn. rewrite Hslot. cbn. by rewrite set_host_same.
Qed.

(** C8 (defect).  Removing from an empty slot is meant to be a no-op
    that reports nothing removed.  On the gun with both slots empty,
    [Kaos.Augment.removeAugmentFromSlot] (and the replaced
    [ItemManager.removeAugmentFromSlot]) leaves the state as it was but
    completes abruptly with a TypeError: [removeGrantedTags] reads
    [augment.augmentGrantedTags] of the absent occupant before the
    [if (!augment)] guard is reached. *)
Theorem remove_from_empty_slot_throws :
  augmentSlotItems Scenario.gun !! 0 = Some "none" /\
  Script.removeAugmentFromSlot 0 false (Scenario.world Scenario.gun) =
    (Scenario.world Scenario.gun, Throw TypeError) /\
  ItemManager.removeAugmentFromSlot 0 (Scenario.world Scenario.gun) =
    (Scenario.world Scenario.gun, Throw TypeError).
Proof. split; [reflexivity|]. by apply removeAugmentFromSlot_empty. Qed.

(** C1 (defect).  Starting from the gun with empty slots, where the
    invariant holds: install augment 1 (grants A and B) in slot 0,
    install augment 2 (grants A) in slot 1, remove slot 0.  Every step
    completes normally; afterwards only augment 2 is installed, yet
    AUG_B is still on the gun, so the invariant is broken.  The flag
    [removeTag] of [removeGrantedTags] is set before the loop over the
    grants and never reset: once one grant (A) is found on another
    augment, no later grant (B) is removed. *)
Theorem granted_tag_outlives_its_granter :
  let start := Scenario.world Scenario.gun in
  grant_invariant start /\
  exists w',
    (Script.installAugmentToSlot (Some Scenario.software) 0 0;;;
     Script.installAugmentToSlot (Some Scenario.patch) 1 0;;;
     Script.removeAugmentFromSlot 0 false) start = (w', Ret (Some Scenario.software)) /\
    installed w' = [Scenario.patch] /\
    "AUG_B" ∈ tags (host w') /\
    ~ grant_invariant w'.
Proof.
  split.
  - intros g. split.
    + intros [E|?%elem_of_nil]%elem_of_cons; [discriminate E | done].
    + intros (a & Ha%elem_of_nil & _). done.
  - eexists. split; [vm_compute; reflexivity|].
    split; [reflexivity|].
    assert (HB : "AUG_B" ∈ ["CANFULLAUTO"; "AUG_B"; "AUG_A"]) by (right; left).
    split; [exact HB|].
    intros Hinv. apply (Hinv "B") in HB as (a & Ha & Hg).
    change (a ∈ [Scenario.patch]) in Ha.
    apply list_elem_of_singleton in Ha. subst a.
    apply list_elem_of_singleton in Hg. discriminate Hg.
Qed.

(** C5 (defect).  A successful install must leave the augment's
    namespaced granted tags on the host.  The gun with augment 1 in
    slot 0 is what installing augment 1 into the empty gun gives;
    installing augment 2 (no requirement, grants A) into the same slot
    succeeds and occupies the slot, but AUG_A is not on the gun
    afterwards: the tags of the new augment are added first, and the
    removal of the previous occupant then takes AUG_A away again. *)
Theorem swap_loses_tag_of_new_occupant :
  exists w1 w2,
    ItemManager.applyAugmentEffects (Some Scenario.software) 0 1
      (Scenario.world Scenario.gun) = (w1, Ret tt) /\
    host w1 = Scenario.gun_with_software /\
    Augment.checkRequirements Scenario.patch (host w1) = true /\
    ItemManager.applyAugmentEffects (Some Scenario.patch) 0 1 w1 = (w2, Ret tt) /\
    installed w2 = [Scenario.patch] /\
    "A" ∈ augmentGrantedTags Scenario.patch /\
    namespaced "A" ∉ tags (host w2).
Proof.
  eexists _, _. split; [vm_compute; reflexivity|].
  split; [reflexivity|]. split; [reflexivity|].
  split; [vm_compute; reflexivity|].
  split; [reflexivity|]. split; [left|].
  intros [E|?%elem_of_nil]%elem_of_cons; [discriminate E | done].
Qed.

(** The script call [Kaos.Augment.installAugmentToSlot] runs
    [applyAugmentEffects] and then loses one unit of the augment whatever
    the outcome: on the untagged gun the rejected install of augment 3
    leaves the host alone, shows the rejection, and takes a unit. *)
Lemma script_install_rejected_consumes_a_unit :
  Script.installAugmentToSlot (Some Scenario.hack) 0 0 (Scenario.world Scenario.plain_gun) =
    (mkWorld Scenario.database Scenario.plain_gun {[1 := 5; 2 := 5; 3 := 4]}
             (Some (mkWindow "Software Rejected!" true)),
     Ret tt).
Proof. vm_compute. reflexivity. Qed.

(** The slots scanned by [removeGrantedTags] are told apart by the id of
    their augment, not by their position: with augment 3 in both slots,
    removing it from slot 0 takes AUG_HACKED away although slot 1 still
    holds an augment granting HACKED. *)
Lemma same_augment_in_two_slots :
  exists w',
    (ItemManager.applyAugmentEffects (Some Scenario.hack) 0 1;;;
     ItemManager.applyAugmentEffects (Some Scenario.hack) 1 1;;;
     Script.removeAugmentFromSlot 0 false) (Scenario.world Scenario.gun)
      = (w', Ret (Some Scenario.hack)) /\
    installed w' = [Scenario.hack] /\
    tags (host w') = ["CANFULLAUTO"].
Proof. eexists. split; [vm_compute; reflexivity|]. split; reflexivity. Qed.

(** * Further properties *)

(** ** The matcher on queries without a wildcard, and with it at an end *)

Lemma new_not_caret (c : ascii) (s : string) :
  Ascii.eqb c "^" = false ->
  RegExp.new (String c s) =
    match RegExp.parse_items (String c s) with
    | Ret (its, e) => Ret (RegExp.mk false its e)
    | Throw x => Throw x
    end.
Proof. each_ascii c; first [discriminate | reflexivity]. Qed.

Lemma is_word_not_caret (c : ascii) : Str.is_word c = true -> Ascii.eqb c "^" = false.
Proof. each_ascii c; vm_compute; intros; first [discriminate | reflexivity]. Qed.

Lemma has_star_word (s : string) : Str.all_word s = true -> Str.has_star s = false.
Proof.
  induction s as [|c s IH]; [done|]. rewrite all_word_cons.
  intros [Hc Hs]%andb_true_iff. cbn. apply is_word_plain in Hc as (_ & -> & _). auto.
Qed.

Lemma match_here_anything (s : string) : RegExp.match_here [] false s = true.
Proof. by destruct s. Qed.

Lemma match_here_end (s : string) : RegExp.match_here [] true s = true <-> s = "".
Proof. destruct s; cbn; split; congruence. Qed.

Lemma match_anywhere_spec (its : list (RegExp.atom * bool)) (e : bool) (s : string) :
  RegExp.match_anywhere its e s = true <->
  exists pre rest, s = pre +:+ rest /\ RegExp.match_here its e rest = true.
Proof.
  induction s as [|c s IH]; cbn [RegExp.match_anywhere]; rewrite orb_true_iff.
  - split.
    + intros [H|?]; [|done]. by exists "", "".
    + intros (pre & rest & E & H). left. destruct pre; [|discriminate].
      rewrite app_empty_l in E. by subst rest.
  - rewrite IH. split.
    + intros [H|(pre & rest & -> & H)].
      * by exists "", (String c s).
      * exists (String c pre), rest. by rewrite app_cons.
    + intros (pre & rest & E & H). destruct pre as [|x pre].
      * left. rewrite app_empty_l in E. by subst rest.
      * right. rewrite app_cons in E. injection E as -> ->. eauto.
Qed.

Lemma wildcardRegex_exact (X : string) :
  Str.all_word X = true ->
  RegExp.new (Augment.wildcardRegex X) = Ret (RegExp.mk true (literal X ++ [])%list true).
Proof.
  intros HX. unfold Augment.wildcardRegex. rewrite has_star_word by done.
  change ("^" +:+ ?s) with (String "^" s). cbn [RegExp.new].
  by rewrite parse_items_literal.
Qed.

Lemma wildcardRegex_prefix (X : string) :
  X <> "" -> Str.all_word X = true ->
  RegExp.new (Augment.wildcardRegex (X +:+ "*")) =
    Ret (RegExp.mk true (literal X ++ [])%list false).
Proof.
  intros HX HwX. unfold Augment.wildcardRegex.
  pose proof (has_star_middle X "") as Hs. rewrite app_empty_r in Hs. rewrite Hs.
  rewrite first_is_star_word by done.
  rewrite last_is_star_app by done. cbn [Str.last_is_star Ascii.eqb Bool.eqb].
  pose proof (replace_star_middle X "" "" HwX) as Hr.
  rewrite !app_empty_r in Hr. rewrite Hr.
  change ("^" +:+ ?s) with (String "^" s). cbn [RegExp.new].
  rewrite <- (app_empty_r X) at 1. by rewrite parse_items_literal.
Qed.

Lemma wildcardRegex_suffix (X : string) :
  Str.all_word X = true ->
  RegExp.new (Augment.wildcardRegex ("*" +:+ X)) =
    Ret (RegExp.mk false (literal X ++ [])%list true).
Proof.
  intros HwX. unfold Augment.wildcardRegex.
  change (Str.has_star ("*" +:+ X)) with true.
  change (Str.first_is_star ("*" +:+ X)) with true.
  change (Str.replace_star ("*" +:+ X) "") with X. cbn match.
  destruct X as [|c X].
  - reflexivity.
  - rewrite app_cons. rewrite all_word_cons in HwX.
    apply andb_true_iff in HwX as [Hc HX].
    rewrite new_not_caret by by apply is_word_not_caret.
    rewrite <- app_cons, parse_items_literal; [done | | done].
    by rewrite all_word_cons, Hc, HX.
Qed.

Lemma matches_exact (X c : string) :
  Str.all_word X = true ->
  exists b, Augment.matches (Str.toUpperCase X) c = Ret b /\
            (b = true <-> Str.toUpperCase c = Str.toUpperCase X).
Proof.
  intros HX. unfold Augment.matches.
  rewrite wildcardRegex_exact by by rewrite all_word_toUpperCase.
  eexists. split; [reflexivity|].
  unfold RegExp.exec. cbn [RegExp.from_start RegExp.items RegExp.to_end].
  rewrite match_here_literal. rewrite toUpperCase_idem. split.
  - intros (s1 & s2 & E & Hs1 & ->%match_here_end).
    rewrite app_empty_r in E. rewrite <- Hs1, <- E. by rewrite toUpperCase_idem.
  - intros E. exists (Str.toUpperCase c), "". rewrite app_empty_r, toUpperCase_idem.
    by rewrite match_here_end.
Qed.

Lemma matches_prefix (X c : string) :
  X <> "" -> Str.all_word X = true ->
  exists b, Augment.matches (Str.toUpperCase (X +:+ "*")) c = Ret b /\
            (b = true <-> exists rest, Str.toUpperCase c = Str.toUpperCase X +:+ rest).
Proof.
  intros HX HwX. unfold Augment.matches.
  rewrite toUpperCase_app. change (Str.toUpperCase "*") with "*".
  rewrite wildcardRegex_prefix; [| by destruct X | by rewrite all_word_toUpperCase].
  eexists. split; [reflexivity|].
  unfold RegExp.exec. cbn [RegExp.from_start RegExp.items RegExp.to_end].
  rewrite match_here_literal. rewrite toUpperCase_idem. split.
  - intros (s1 & s2 & E & Hs1 & _). exists (Str.toUpperCase s2).
    rewrite <- Hs1, <- toUpperCase_app, <- E. by rewrite toUpperCase_idem.
  - intros (rest & E). exists (Str.toUpperCase X), rest.
    by rewrite toUpperCase_idem, match_here_anything.
Qed.

Lemma matches_suffix (X c : string) :
  Str.all_word X = true ->
  exists b, Augment.matches (Str.toUpperCase ("*" +:+ X)) c = Ret b /\
            (b = true <-> exists pre, Str.toUpperCase c = pre +:+ Str.toUpperCase X).
Proof.
  intros HwX. unfold Augment.matches.
  rewrite toUpperCase_app. change (Str.toUpperCase "*") with "*".
  rewrite wildcardRegex_suffix by by rewrite all_word_toUpperCase.
  eexists. split; [reflexivity|].
  unfold RegExp.exec. cbn [RegExp.from_start RegExp.items RegExp.to_end].
  rewrite match_anywhere_spec. split.
  - intros (pre & rest & E & (s1 & s2 & -> & Hs1 & ->%match_here_end)%match_here_literal).
    rewrite app_empty_r in E. exists (Str.toUpperCase pre).
    rewrite toUpperCase_idem in Hs1. rewrite <- Hs1, <- toUpperCase_app, <- E.
    by rewrite toUpperCase_idem.
  - intros (pre & E). exists pre, (Str.toUpperCase X). split; [done|].
    apply match_here_literal. exists (Str.toUpperCase X), "".
    by rewrite app_empty_r, match_here_end.
Qed.

Lemma matcher_pointwise (pattern : string) (Q : string -> Prop)
    (reqs : list string) (item : Item) :
  (forall c, exists b, Augment.matches (Str.toUpperCase pattern) c = Ret b /\ (b = true <-> Q c)) ->
  (exists b, Augment.baseHasReqs pattern reqs = Ret b /\
             (b = true <-> exists c, c ∈ reqs /\ Q c)) /\
  (exists b, Augment.hasTag item pattern false = Ret (JBool b) /\
             (b = true <-> exists c, c ∈ tags item /\ Q c)).
Proof.
  intros Hdec. pose proof (toUpperCase_idem pattern) as Hup. split.
  - rewrite baseHasReqs_upper. apply (baseHasReqs_pointwise _ _ Hup Hdec).
  - unfold Augment.hasTag. rewrite scan_upper.
    destruct (scan_pointwise _ _ Hup Hdec (tags item) 0 false 0) as (b & ix & -> & Hb).
    exists b. cbn. rewrite andb_false_r. split; [done|].
    rewrite Hb. split; [intros [?|?]; done | auto].
Qed.


(** X1. For a query [X] that is a non-empty run of word characters, the
    matchers complete normally and answer true exactly when some
    candidate, letter case ignored, equals [X] (query [X]), starts with
    [X] (query [X*]), ends with [X] (query [*X]); what precedes or
    follows may be any characters. *)
Theorem wildcard_at_an_end_or_absent (X : string) (reqs : list string) (item : Item) :
  X <> "" -> Str.all_word X = true ->
  ((exists b, Augment.baseHasReqs X reqs = Ret b /\
      (b = true <-> exists c, c ∈ reqs /\ Str.toUpperCase c = Str.toUpperCase X)) /\
   (exists b, Augment.hasTag item X false = Ret (JBool b) /\
      (b = true <-> exists c, c ∈ tags item /\ Str.toUpperCase c = Str.toUpperCase X))) /\
  ((exists b, Augment.baseHasReqs (X +:+ "*") reqs = Ret b /\
      (b = true <-> exists c, c ∈ reqs /\
         exists rest, Str.toUpperCase c = Str.toUpperCase X +:+ rest)) /\
   (exists b, Augment.hasTag item (X +:+ "*") false = Ret (JBool b) /\
      (b = true <-> exists c, c ∈ tags item /\
         exists rest, Str.toUpperCase c = Str.toUpperCase X +:+ rest))) /\
  ((exists b, Augment.baseHasReqs ("*" +:+ X) reqs = Ret b /\
      (b = true <-> exists c, c ∈ reqs /\
         exists pre, Str.toUpperCase c = pre +:+ Str.toUpperCase X)) /\
   (exists b, Augment.hasTag item ("*" +:+ X) false = Ret (JBool b) /\
      (b = true <-> exists c, c ∈ tags item /\
         exists pre, Str.toUpperCase c = pre +:+ Str.toUpperCase X))).
Proof.
  intros HX HwX. split; [|split]; apply matcher_pointwise; intros c.
  - by apply matches_exact.
  - by apply matches_prefix.
  - by apply matches_suffix.
Qed.

Lemma wildcard_at_an_end_or_absent_witness :
  ((exists b, Augment.baseHasReqs "can" ["CANFULLAUTO"] = Ret b /\
      (b = true <-> exists c, c ∈ ["CANFULLAUTO"] /\
         Str.toUpperCase c = Str.toUpperCase "can")) /\
   (exists b, Augment.hasTag Scenario.gun "can" false = Ret (JBool b) /\
      (b = true <-> exists c, c ∈ tags Scenario.gun /\
         Str.toUpperCase c = Str.toUpperCase "can"))) /\
  ((exists b, Augment.baseHasReqs ("can" +:+ "*") ["CANFULLAUTO"] = Ret b /\
      (b = true <-> exists c, c ∈ ["CANFULLAUTO"] /\
         exists rest, Str.toUpperCase c = Str.toUpperCase "can" +:+ rest)) /\
   (exists b, Augment.hasTag Scenario.gun ("can" +:+ "*") false = Ret (JBool b) /\
      (b = true <-> exists c, c ∈ tags Scenario.gun /\
         exists rest, Str.toUpperCase c = Str.toUpperCase "can" +:+ rest))) /\
  ((exists b, Augment.baseHasReqs ("*" +:+ "can") ["CANFULLAUTO"] = Ret b /\
      (b = true <-> exists c, c ∈ ["CANFULLAUTO"] /\
         exists pre, Str.toUpperCase c = pre +:+ Str.toUpperCase "can")) /\
   (exists b, Augment.hasTag Scenario.gun ("*" +:+ "can") false = Ret (JBool b) /\
      (b = true <-> exists c, c ∈ tags Scenario.gun /\
         exists pre, Str.toUpperCase c = pre +:+ Str.toUpperCase "can"))).
Proof.
  apply (wildcard_at_an_end_or_absent "can" ["CANFULLAUTO"] Scenario.gun);
    [discriminate | reflexivity].
Defined.

(** ** Tags as multisets *)

Lemma occurrences_app (x : string) (l1 l2 : list string) :
  occurrences x (l1 ++ l2) = occurrences x l1 + occurrences x l2.
Proof. induction l1 as [|y l1 IH]; cbn; [done|]. rewrite IH. lia. Qed.

Lemma occurrences_remove1 (x u : string) (l : list string) :
  occurrences x (remove1 u l) =
  occurrences x l - (if String.eqb x u then 1 else 0).
Proof.
  induction l as [|y l IH]; [done|]. cbn.
  destruct (String.eqb y u) eqn:Eyu.
  - apply String.eqb_eq in Eyu. subst y.
    rewrite (String.eqb_sym u x). destruct (String.eqb x u); cbn; lia.
  - cbn. rewrite IH. destruct (String.eqb y x) eqn:Eyx; [|done].
    apply String.eqb_eq in Eyx. subst y. rewrite Eyu. cbn. lia.
Qed.

Lemma length_remove1 (u : string) (l : list string) :
  match occurrences u l with
  | 0 => remove1 u l = l
  | S _ => S (length (remove1 u l)) = length l
  end.
Proof.
  induction l as [|y l IH]; [done|]. cbn.
  destruct (String.eqb y u); cbn; [done|].
  destruct (occurrences u l); cbn; congruence.
Qed.

Lemma occurrences_add_all (ns l : list string) (x : string) :
  occurrences x (add_all ns l) =
    (if bool_decide (x ∈ ns) then Nat.max 1 (occurrences x l) else occurrences x l).
Proof.
  unfold add_all. revert l. induction ns as [|n ns IH]; intros l; cbn.
  - rewrite bool_decide_eq_false_2; [done | apply not_elem_of_nil].
  - rewrite IH, occurrences_app, occurrences_remove1. cbn.
    rewrite (String.eqb_sym n x). destruct (String.eqb x n) eqn:E.
    + apply String.eqb_eq in E. subst n.
      rewrite (bool_decide_eq_true_2 (x ∈ x :: ns)) by left.
      case_bool_decide; lia.
    + apply String.eqb_neq in E.
      assert (Hiff : x ∈ n :: ns <-> x ∈ ns)
        by (rewrite elem_of_cons; split; [intros [?|?]; [congruence | done] | auto]).
      rewrite (bool_decide_ext _ _ Hiff). case_bool_decide; lia.
Qed.

Lemma occurrences_remove_all (ns l : list string) (x : string) :
  occurrences x (remove_all ns l) <= occurrences x l /\
  (x ∉ ns -> occurrences x (remove_all ns l) = occurrences x l).
Proof.
  unfold remove_all. revert l. induction ns as [|n ns IH]; intros l; cbn; [auto|].
  destruct (IH (remove1 n l)) as [IH1 IH2].
  pose proof (occurrences_remove1 x n l) as H1. split; [lia|].
  intros Hx. rewrite IH2 by (intros ?; apply Hx; by right).
  rewrite H1. destruct (String.eqb x n) eqn:E; [|lia].
  apply String.eqb_eq in E. subst n. exfalso. apply Hx. left.
Qed.

Lemma removeGrantedTags_from_shape (data : list (option Item)) (augment : Item)
    (grants : list string) (flag : bool) (item : Item) :
  exists ns r,
    Augment.removeGrantedTags_from data augment grants flag item =
      (set_tags item (remove_all ns (tags item)), r) /\
    (forall n, n ∈ ns -> n ∈ map namespaced grants).
Proof.
  revert flag item. induction grants as [|g grants IH]; intros flag item.
  - exists [], (Ret tt). cbn. rewrite set_tags_same. split; [done|].
    by intros ? ?%elem_of_nil.
  - cbn [Augment.removeGrantedTags_from]. unfold andThen, read, pure_, update, unit_.
    destruct (Augment.scanSlots _ _ _ _ _) as [[|]|e].
    + destruct (IH true (Augment.removeTag item ("aug_" +:+ g))) as (ns & r & E & Hns).
      exists (namespaced g :: ns), r. rewrite E, removeTag_eq. split; [done|].
      intros n [->|?]%elem_of_cons; [left | right; auto].
    + destruct (IH false item) as (ns & r & E & Hns).
      exists ns, r. split; [done|]. intros n ?. right. auto.
    + exists [], (Throw e). cbn. rewrite set_tags_same. split; [done|].
      by intros ? ?%elem_of_nil.
Qed.

Lemma removeGrantedTags_frame (data : list (option Item)) (augment : option Item) (item : Item) :
  exists l r, Augment.removeGrantedTags data augment item = (set_tags item l, r).
Proof.
  destruct augment as [a|].
  - destruct (removeGrantedTags_from_shape data a (augmentGrantedTags a) true item)
      as (ns & r & E & _). eauto.
  - exists (tags item), (Throw TypeError). cbn. by rewrite set_tags_same.
Qed.


(** X2. [addTag] stores the upper-cased tag as the last tag; it then
    occurs as often as before but at least once, and no other tag gains
    or loses a copy.  [removeTag] takes away one copy of the upper-cased
    tag, the first, and no other tag: a duplicate stays, the tag array
    gets one shorter, and an item that does not hold the upper-cased tag
    is returned as it is. *)
Theorem addTag_and_removeTag_count_copies (item : Item) (tag x : string) :
  last (tags (Augment.addTag item tag)) = Some (Str.toUpperCase tag) /\
  occurrences x (tags (Augment.addTag item tag)) =
    (if String.eqb x (Str.toUpperCase tag)
     then Nat.max 1 (occurrences x (tags item))
     else occurrences x (tags item)) /\
  occurrences x (tags (Augment.removeTag item tag)) =
    occurrences x (tags item) -
    (if String.eqb x (Str.toUpperCase tag) then 1 else 0) /\
  match occurrences (Str.toUpperCase tag) (tags item) with
  | 0 => Augment.removeTag item tag = item
  | S _ => S (length (tags (Augment.removeTag item tag))) = length (tags item)
  end.
Proof.
  rewrite addTag_eq, removeTag_eq. cbn [tags set_tags].
  split; [apply last_snoc|]. split; [|split].
  - rewrite occurrences_app, occurrences_remove1. cbn.
    rewrite (String.eqb_sym (Str.toUpperCase tag) x).
    destruct (String.eqb x (Str.toUpperCase tag)); lia.
  - apply occurrences_remove1.
  - pose proof (length_remove1 (Str.toUpperCase tag) (tags item)) as H.
    destruct (occurrences _ _); [|done]. rewrite H. apply set_tags_same.
Qed.

(** X3. Granted tags stay in their namespace.  [addGrantedTags] changes
    nothing but the tags: each namespaced granted tag of the augment
    then occurs as often as before but at least once, every other tag
    exactly as often as before.  [removeGrantedTags], whatever its
    completion, changes nothing but the tags, never adds a tag, and
    removes copies only of the namespaced granted tags of the departing
    augment. *)
Theorem granted_tags_stay_in_their_namespace
    (data : list (option Item)) (augment item : Item) (x : string) :
  (Augment.addGrantedTags item augment =
     set_tags item (tags (Augment.addGrantedTags item augment)) /\
   occurrences x (tags (Augment.addGrantedTags item augment)) =
     (if bool_decide (x ∈ map namespaced (augmentGrantedTags augment))
      then Nat.max 1 (occurrences x (tags item))
      else occurrences x (tags item))) /\
  exists item' r,
    Augment.removeGrantedTags data (Some augment) item = (item', r) /\
    item' = set_tags item (tags item') /\
    occurrences x (tags item') <= occurrences x (tags item) /\
    (if bool_decide (x ∈ map namespaced (augmentGrantedTags augment))
     then True
     else occurrences x (tags item') = occurrences x (tags item)).
Proof.
  split.
  - rewrite addGrantedTags_eq. cbn [tags set_tags]. split; [done|].
    apply occurrences_add_all.
  - destruct (removeGrantedTags_from_shape data augment (augmentGrantedTags augment) true item)
      as (ns & r & E & Hns).
    eexists _, r. split; [exact E|]. cbn [tags set_tags]. split; [done|].
    destruct (occurrences_remove_all ns (tags item) x) as [Hle Heq].
    split; [done|]. case_bool_decide as Hx; [done|]. apply Heq. auto.
Qed.

(** ** Removal by the script call *)

(** X4. Whenever [Kaos.Augment.removeAugmentFromSlot] completes
    normally, the slot held an augment of the database, that augment is
    what it returns, the slot is empty afterwards with the other slots
    as before, and the party holds exactly one more unit of the augment:
    the argument [gain] has no influence.  There is no normal completion
    that removes nothing. *)
Theorem script_remove_normal_completion
    (w w' : World) (slotId : nat) (gain : bool) (r : option Item) :
  Script.removeAugmentFromSlot slotId gain w = (w', Ret r) ->
  exists entry a,
    augmentSlotItems (host w) !! slotId = Some entry /\
    entry <> "none" /\
    Augment.dataItem (dataItems w) entry = Some a /\
    r = Some a /\
    augmentSlotItems (host w') = <[slotId := "none"]> (augmentSlotItems (host w)) /\
    partyItems w' = <[id a := S (default 0 (partyItems w !! id a))]> (partyItems w).
Proof.
  unfold Script.removeAugmentFromSlot, ItemManager.removeAugmentFromSlot,
    ItemManager.augmentInSlot, ItemManager.gainItem,
    andThen, on_host, read, unit_, update, raise.
  cbn -[Augment.removeGrantedTags]. rewrite orb_true_r.
  destruct (augmentSlotItems (host w) !! slotId) as [entry|] eqn:Hslot;
    cbn -[Augment.removeGrantedTags]; [|intros [=]].
  destruct (String.eqb entry "none") eqn:Hnone;
    cbn -[Augment.removeGrantedTags]; [intros [=]|].
  destruct (Augment.dataItem (dataItems w) entry) as [a|] eqn:Ha;
    cbn -[Augment.removeGrantedTags]; [|intros [=]].
  destruct (removeGrantedTags_frame (dataItems w) (Some a) (host w)) as (l1 & r1 & ->).
  destruct r1 as [[]|]; cbn -[Augment.removeGrantedTags]; [|intros [=]].
  rewrite Hslot. cbn -[Augment.removeGrantedTags]. rewrite Hnone, Ha.
  cbn -[Augment.removeGrantedTags].
  destruct (removeGrantedTags_frame (dataItems w) (Some a) (set_tags (host w) l1))
    as (l2 & r2 & ->).
  destruct r2 as [[]|]; cbn -[Augment.removeGrantedTags]; [|intros [=]].
  destruct (augmentSlots (host w) !! slotId); cbn -[Augment.removeGrantedTags];
    [|intros [=]].
  rewrite Hslot. cbn. rewrite Hnone, Ha. cbn.
  intros [= <- <-]. exists entry, a. cbn.
  apply String.eqb_neq in Hnone.
  repeat (split; [done|]).
  replace (Z.to_nat (Z.of_nat (default 0 (partyItems w !! id a)) + 1))
    with (S (default 0 (partyItems w !! id a))) by lia.
  done.
Qed.

Lemma script_remove_normal_completion_witness :
  exists entry a,
    augmentSlotItems (host (Scenario.world Scenario.gun_with_software)) !! 0 = Some entry /\
    entry <> "none" /\
    Augment.dataItem (dataItems (Scenario.world Scenario.gun_with_software)) entry = Some a /\
    Some Scenario.software = Some a /\
    augmentSlotItems
      (host (mkWorld Scenario.database
               (set_augmentSlotItems Scenario.gun ["none"; "none"])
               {[1 := 6; 2 := 5; 3 := 5]} (Some (mkWindow "" false)))) =
      <[0 := "none"]> (augmentSlotItems (host (Scenario.world Scenario.gun_with_software))) /\
    partyItems
      (mkWorld Scenario.database
         (set_augmentSlotItems Scenario.gun ["none"; "none"])
         {[1 := 6; 2 := 5; 3 := 5]} (Some (mkWindow "" false))) =
      <[id a := S (default 0
                     (partyItems (Scenario.world Scenario.gun_with_software) !! id a))]>
        (partyItems (Scenario.world Scenario.gun_with_software)).
Proof.
  apply (script_remove_normal_completion
           (Scenario.world Scenario.gun_with_software)
           (mkWorld Scenario.database (set_augmentSlotItems Scenario.gun ["none"; "none"])
                    {[1 := 6; 2 := 5; 3 := 5]} (Some (mkWindow "" false)))
           0 false (Some Scenario.software)).
  vm_compute. reflexivity.
Defined.


(** ** The rejection-string methods *)

Lemma baseHasRejectString_upper (reject rejects : string) :
  Methods.baseHasRejectString reject rejects =
  Methods.baseHasRejectString (Str.toUpperCase reject) rejects.
Proof. destruct rejects; cbn; [reflexivity|]. by rewrite toUpperCase_idem. Qed.

Lemma baseHasRejectString_pointwise (tag : string) (P : string -> Prop) (rejects : string) :
  Str.toUpperCase tag = tag ->
  (forall c, exists b, Augment.matches tag c = Ret b /\ (b = true <-> P c)) ->
  exists b, Methods.baseHasRejectString tag rejects = Ret b /\
            (b = true <-> exists c, c ∈ list_ascii_of_string rejects /\ P (String c "")).
Proof.
  intros Hup Hdec. induction rejects as [|c rejects (b & IH & Hb)]; cbn.
  - exists false. split; [done|]. split; [done|].
    intros (c & Hc & _). by apply elem_of_nil in Hc.
  - rewrite Hup. destruct (Hdec (String c "")) as ([|] & -> & Hc).
    + exists true. split; [done|]. split; [|done].
      intros _. exists c. split; [left | by apply Hc].
    + exists b. split; [done|]. rewrite Hb. split.
      * intros (c' & Hin & HP). exists c'. split; [by right | done].
      * intros (c' & [->|Hin]%elem_of_cons & HP); [|eauto].
        apply Hc in HP. discriminate.
Qed.

(** X5. [hasReject] compares the query with each single character of
    the rejection string, not with the string: for a query of word
    characters it answers true exactly when the query is one character
    long and that character occurs in the rejection string, letter case
    ignored.  So a query of two or more characters is not found even
    right after [replaceReject] has stored it. *)
Theorem hasReject_compares_single_characters (obj : Item) (reject : string) :
  Str.all_word reject = true ->
  (exists b, Methods.hasReject obj reject = Ret b /\
     (b = true <->
      exists c, c ∈ list_ascii_of_string (augmentRejectionString obj) /\
                String (Str.upper_char c) "" = Str.toUpperCase reject)) /\
  (if Nat.eqb (String.length reject) 1 then True
   else Methods.hasReject (Methods.replaceReject obj reject) reject = Ret false).
Proof.
  intros Hw. pose proof (fun c => matches_exact reject c Hw) as Hdec.
  pose proof (toUpperCase_idem reject) as Hup.
  assert (Hgen : forall o, exists b, Methods.hasReject o reject = Ret b /\
     (b = true <->
      exists c, c ∈ list_ascii_of_string (augmentRejectionString o) /\
                String (Str.upper_char c) "" = Str.toUpperCase reject)).
  { intros o. unfold Methods.hasReject. rewrite baseHasRejectString_upper.
    apply (baseHasRejectString_pointwise _ _ _ Hup Hdec). }
  split; [apply Hgen|].
  destruct (Nat.eqb (String.length reject) 1) eqn:Hlen; [done|].
  apply Nat.eqb_neq in Hlen.
  destruct (Hgen (Methods.replaceReject obj reject)) as (b & -> & Hb).
  f_equal. destruct b; [|done]. exfalso.
  destruct Hb as [Hb _]. destruct (Hb eq_refl) as (c & _ & E).
  apply Hlen. destruct reject as [|x [|y reject]]; [discriminate | done | discriminate].
Qed.

Lemma hasReject_compares_single_characters_witness :
  (exists b, Methods.hasReject Scenario.hack "Software" = Ret b /\
     (b = true <->
      exists c, c ∈ list_ascii_of_string (augmentRejectionString Scenario.hack) /\
                String (Str.upper_char c) "" = Str.toUpperCase "Software")) /\
  (if Nat.eqb (String.length "Software") 1 then True
   else Methods.hasReject (Methods.replaceReject Scenario.hack "Software") "Software"
        = Ret false).
Proof. apply (hasReject_compares_single_characters Scenario.hack "Software"). reflexivity. Defined.


(** ** Note tags *)

Lemma lacks_cons (bad : ascii -> bool) (c : ascii) (s : string) :
  lacks bad (String c s) = negb (bad c) && lacks bad s.
Proof. reflexivity. Qed.

Lemma lacks_app (bad : ascii -> bool) (s1 s2 : string) :
  lacks bad (s1 +:+ s2) = lacks bad s1 && lacks bad s2.
Proof.
  induction s1 as [|c s1 IH]; [reflexivity|].
  rewrite app_cons, !lacks_cons, IH. by rewrite andb_assoc.
Qed.

Lemma words_chars (P : ascii -> Prop) (s : string) :
  Forall P (list_ascii_of_string s) ->
  Forall (fun w => w <> "" /\ Str.all_word w = true /\
                   Forall P (list_ascii_of_string w)) (Notetags.words s).
Proof.
  induction s as [|c s IH]; [constructor|]. cbn [list_ascii_of_string].
  intros [Hc Hs]%Forall_cons. specialize (IH Hs). cbn [Notetags.words].
  destruct (Str.is_word c) eqn:Hw; [|exact IH].
  destruct s as [|c' s'].
  - constructor; [|constructor]. rewrite all_word_cons, Hw. repeat split; [done|].
    by constructor.
  - destruct (Str.is_word c') eqn:Hw'.
    + destruct (Notetags.words (String c' s')) as [|w ws].
      * constructor; [|constructor]. rewrite all_word_cons, Hw. repeat split; [done|].
        by constructor.
      * apply Forall_cons in IH as [(Hne & Haw & HP) IH]. constructor; [|done].
        rewrite all_word_cons, Hw, Haw. repeat split; [done|]. by constructor.
    + constructor; [|done]. rewrite all_word_cons, Hw. repeat split; [done|].
      by constructor.
Qed.

Lemma chars_toUpperCase (s : string) :
  Forall (fun c => Str.upper_char c = c) (list_ascii_of_string (Str.toUpperCase s)).
Proof. induction s as [|c s IH]; cbn; constructor; auto using upper_char_idem. Qed.

Lemma stored_chars (w : string) :
  Forall (fun c => Str.upper_char c = c) (list_ascii_of_string w) -> stored w.
Proof.
  unfold stored. induction w as [|c w IH]; [done|]. cbn.
  intros [-> Hw]%Forall_cons. by rewrite IH.
Qed.

Lemma words_parsed (s : string) :
  Forall parsed_entry (map Some (Notetags.words (Str.toUpperCase s))).
Proof.
  apply Forall_fmap. eapply Forall_impl; [apply words_chars, chars_toUpperCase|].
  intros w (Hne & Hw & Hc). cbn. auto using stored_chars.
Qed.

Lemma concat_parsed (array : list (option string)) (s : string) :
  exists added,
    Notetags.concat array (Notetags.matchWords (Str.toUpperCase s)) = (array ++ added)%list /\
    Forall parsed_entry added.
Proof.
  unfold Notetags.concat, Notetags.matchWords.
  pose proof (words_parsed s) as H.
  destruct (Notetags.words (Str.toUpperCase s)) as [|w ws].
  - exists [None]. split; [done|]. by repeat constructor.
  - eauto.
Qed.

Lemma collect_parsed (keyword : string) (notelines : list string) (array : list (option string)) :
  exists added,
    Notetags.collect keyword notelines array = (array ++ added)%list /\
    Forall parsed_entry added.
Proof.
  revert array. induction notelines as [|line rest IH]; intros array; cbn.
  - exists []. by rewrite app_nil_r.
  - destruct (Notetags.lineMatch keyword line) as [body|]; [|apply IH].
    destruct (concat_parsed array body) as (a1 & -> & H1).
    destruct (IH (array ++ a1)%list) as (a2 & -> & H2).
    exists (a1 ++ a2)%list. rewrite app_assoc. split; [done|]. by apply Forall_app.
Qed.

(** X6. Whatever the note, the parser only appends to the field, and
    what it appends is [null] or a non-empty run of word characters in
    upper case: parsed requirements and grants are in the stored form
    the exact comparison of [checkRequirements] relies on. *)
Theorem parser_stores_upper_case_words (note : string) (previous : option (list (option string))) :
  (exists added,
     Notetags.requirements note previous = (default [] previous ++ added)%list /\
     Forall parsed_entry added) /\
  (exists added,
     Notetags.grants note previous = (default [] previous ++ added)%list /\
     Forall parsed_entry added).
Proof. split; apply collect_parsed. Qed.

Lemma after_prefix_app (p1 p2 rest : string) :
  Str.toUpperCase p2 = Str.toUpperCase p1 ->
  Notetags.after_prefix p1 (p2 +:+ rest) = Some rest.
Proof.
  revert p2. induction p1 as [|c p1 IH]; intros p2 E.
  - destruct p2; [done | discriminate].
  - destruct p2 as [|c2 p2]; [discriminate|]. cbn in E. injection E as Ec E.
    rewrite app_cons. cbn [Notetags.after_prefix].
    rewrite Ec, Ascii.eqb_refl. auto.
Qed.

Lemma capture_none (tail : string) :
  lacks (fun c => Ascii.eqb c ">") tail = true -> Notetags.capture tail = None.
Proof.
  induction tail as [|c tail IH]; [done|]. rewrite lacks_cons.
  intros [Hc Ht]%andb_true_iff. cbn. rewrite IH by done.
  apply negb_true_iff in Hc. rewrite Hc. by destruct (Notetags.is_newline c).
Qed.

Lemma capture_body (body tail : string) :
  lacks Notetags.is_newline body = true ->
  lacks (fun c => Ascii.eqb c ">") tail = true ->
  Notetags.capture (body +:+ ">" +:+ tail) = Some body.
Proof.
  intros Hb Ht. induction body as [|c body IH].
  - rewrite app_empty_l. change (">" +:+ tail) with (String ">" tail).
    cbn. by rewrite capture_none.
  - rewrite lacks_cons in Hb. apply andb_true_iff in Hb as [Hc Hb].
    rewrite app_cons. cbn [Notetags.capture].
    apply negb_true_iff in Hc. by rewrite Hc, IH.
Qed.

Lemma lineMatch_tag_line (keyword written body tail : string) :
  Str.toUpperCase written = Str.toUpperCase keyword ->
  lacks Notetags.is_newline body = true ->
  lacks (fun c => Ascii.eqb c ">") tail = true ->
  Notetags.lineMatch keyword (("<" +:+ written +:+ ": ") +:+ body +:+ ">" +:+ tail) = Some body.
Proof.
  intros Hkw Hb Ht.
  assert (E : Notetags.after_prefix ("<" +:+ keyword +:+ ": ")
                (("<" +:+ written +:+ ": ") +:+ body +:+ ">" +:+ tail) ≫= Notetags.capture
              = Some body).
  { rewrite after_prefix_app.
    - cbn. by apply capture_body.
    - rewrite !toUpperCase_app. by rewrite Hkw. }
  destruct (("<" +:+ written +:+ ": ") +:+ body +:+ ">" +:+ tail) as [|c s] eqn:El;
    cbn [Notetags.lineMatch]; by rewrite E.
Qed.

Lemma is_newline_upper_char (c : ascii) :
  Notetags.is_newline (Str.upper_char c) = Notetags.is_newline c.
Proof. each_ascii c; reflexivity. Qed.

Lemma is_word_not_newline (c : ascii) : Str.is_word c = true -> Notetags.is_newline c = false.
Proof. each_ascii c; vm_compute; intros; first [discriminate | reflexivity]. Qed.

Lemma lacks_newline_toUpperCase (s : string) :
  lacks Notetags.is_newline (Str.toUpperCase s) = lacks Notetags.is_newline s.
Proof.
  induction s as [|c s IH]; [done|]. cbn [Str.toUpperCase].
  by rewrite !lacks_cons, is_newline_upper_char, IH.
Qed.

Lemma lacks_newline_word (w : string) :
  Str.all_word w = true -> lacks Notetags.is_newline w = true.
Proof.
  induction w as [|c w IH]; [done|]. rewrite all_word_cons, lacks_cons.
  intros [Hc Hw]%andb_true_iff. by rewrite (is_word_not_newline c Hc), IH.
Qed.

Lemma split_from_one_line (s : string) (f : bool) :
  lacks Notetags.is_newline s = true -> Notetags.split_from s f = [s].
Proof.
  revert f. induction s as [|c s IH]; intros f; [done|]. rewrite lacks_cons.
  intros [Hc Hs]%andb_true_iff. apply negb_true_iff in Hc. cbn.
  by rewrite Hc, (IH false).
Qed.

Lemma words_token (w rest : string) :
  w <> "" -> Str.all_word w = true ->
  match rest with String c _ => Str.is_word c = false | EmptyString => True end ->
  Notetags.words (w +:+ rest) = w :: Notetags.words rest.
Proof.
  induction w as [|c w IH]; [done|]. intros _. rewrite all_word_cons.
  intros [Hc Hw]%andb_true_iff Hrest. rewrite app_cons. cbn [Notetags.words]. rewrite Hc.
  destruct w as [|c2 w].
  - rewrite app_empty_l. destruct rest as [|r rest]; [done|]. by rewrite Hrest.
  - rewrite app_cons. rewrite all_word_cons in Hw. pose proof Hw as Hw'.
    apply andb_true_iff in Hw as [Hc2 _]. rewrite Hc2, <- app_cons.
    rewrite IH; [done | done | | done]. by rewrite all_word_cons.
Qed.

Lemma words_commaList (ws : list string) :
  Forall (fun w => w <> "" /\ Str.all_word w = true) ws ->
  Notetags.words (commaList ws) = ws.
Proof.
  induction 1 as [|w ws [Hne Hw] Hws IH]; [done|].
  destruct ws as [|w' ws].
  - cbn. rewrite <- (app_empty_r w) at 1. by rewrite words_token.
  - change (commaList (w :: w' :: ws)) with (w +:+ ", " +:+ commaList (w' :: ws)).
    rewrite words_token by done.
    change (", " +:+ ?s) with (String "," (String " " s)). cbn [Notetags.words].
    change (Str.is_word ",") with false. change (Str.is_word " ") with false.
    cbn match. by rewrite IH.
Qed.

Lemma toUpperCase_commaList (ws : list string) :
  Str.toUpperCase (commaList ws) = commaList (map Str.toUpperCase ws).
Proof.
  induction ws as [|w ws IH]; [done|]. destruct ws as [|w' ws]; [done|].
  change (commaList (w :: w' :: ws)) with (w +:+ ", " +:+ commaList (w' :: ws)).
  rewrite !toUpperCase_app, IH. done.
Qed.

Lemma lacks_newline_commaList (ws : list string) :
  Forall (fun w => w <> "" /\ Str.all_word w = true) ws ->
  lacks Notetags.is_newline (commaList ws) = true.
Proof.
  induction 1 as [|w ws [Hne Hw] Hws IH]; [done|].
  destruct ws as [|w' ws]; [by apply lacks_newline_word|].
  change (commaList (w :: w' :: ws)) with (w +:+ ", " +:+ commaList (w' :: ws)).
  rewrite !lacks_app, IH, lacks_newline_word by done. done.
Qed.

Lemma toUpperCase_nonempty (w : string) : w <> "" -> Str.toUpperCase w <> "".
Proof. by destruct w. Qed.

(** X7. Writing and reading a requirement tag: a note that consists of
    the tag, its keyword in any letter case, followed by non-empty runs
    of word characters separated by a comma and a space, yields those
    terms upper-cased, in order, appended to the field; with no term at
    all it yields one [null] entry. *)
Theorem requirements_of_written_tag
    (written : string) (ws : list string) (previous : option (list (option string))) :
  Str.toUpperCase written = "AUGMENT REQUIRES TAGS" ->
  Forall (fun w => w <> "" /\ Str.all_word w = true) ws ->
  Notetags.requirements (("<" +:+ written +:+ ": ") +:+ commaList ws +:+ ">") previous =
    (default [] previous ++
     match ws with
     | [] => [None]
     | _ :: _ => map (fun w => Some (Str.toUpperCase w)) ws
     end)%list.
Proof.
  intros Hkw Hws. unfold Notetags.requirements, Notetags.split.
  assert (Hwr : lacks Notetags.is_newline written = true).
  { rewrite <- lacks_newline_toUpperCase, Hkw. reflexivity. }
  rewrite split_from_one_line.
  2:{ rewrite !lacks_app, Hwr, lacks_newline_commaList by done. reflexivity. }
  cbn [Notetags.collect].
  change (commaList ws +:+ ">") with (commaList ws +:+ ">" +:+ "").
  rewrite lineMatch_tag_line; [| by rewrite Hkw | by apply lacks_newline_commaList | done].
  unfold Notetags.concat, Notetags.matchWords.
  rewrite toUpperCase_commaList, words_commaList.
  - destruct ws as [|w ws]; [done|]. cbn. by rewrite map_map.
  - apply Forall_fmap. eapply Forall_impl; [exact Hws|]. cbn.
    intros w [Hne Hw]. split; [by apply toUpperCase_nonempty|].
    by rewrite all_word_toUpperCase.
Qed.

Lemma requirements_of_written_tag_witness :
  Notetags.requirements
    (("<" +:+ "Augment Requires Tags" +:+ ": ") +:+
     commaList ["canFullAuto"; "submachinegun"] +:+ ">") None =
    (default [] None ++ map (fun w => Some (Str.toUpperCase w))
                            ["canFullAuto"; "submachinegun"])%list.
Proof.
  apply (requirements_of_written_tag "Augment Requires Tags"
           ["canFullAuto"; "submachinegun"] None); [reflexivity|].
  repeat constructor; discriminate.
Defined.


Lemma split_from_first_line (nl : ascii) (line rest : string) :
  Notetags.is_newline nl = true ->
  lacks Notetags.is_newline line = true ->
  Notetags.split_from (line +:+ String nl rest) false =
    line :: Notetags.split_from rest true.
Proof.
  intros Hnl. induction line as [|c line IH].
  - intros _. rewrite app_empty_l. cbn. by rewrite Hnl.
  - rewrite lacks_cons. intros [Hc Hl]%andb_true_iff. apply negb_true_iff in Hc.
    rewrite app_cons. cbn. by rewrite Hc, IH.
Qed.

(** X8. Rejection strings accumulate: when two lines of a note both
    declare a rejection string, the field holds the first value followed
    by the second, after whatever it held before; the later declaration
    does not replace the earlier one. *)
Theorem rejection_strings_accumulate
    (nl : ascii) (line1 line2 body1 body2 : string) (text : option string) :
  Notetags.is_newline nl = true ->
  lacks Notetags.is_newline line1 = true ->
  lacks Notetags.is_newline line2 = true ->
  Notetags.lineMatch "AUGMENT REJECTION STRING" line1 = Some body1 ->
  Notetags.lineMatch "AUGMENT REJECTION STRING" line2 = Some body2 ->
  Notetags.rejection (line1 +:+ String nl line2) text =
    (default "" text +:+ body1) +:+ body2.
Proof.
  intros Hnl H1 H2 M1 M2. unfold Notetags.rejection, Notetags.split.
  rewrite split_from_first_line, split_from_one_line by done.
  cbn [Notetags.collectText]. by rewrite M1, M2.
Qed.

Lemma rejection_strings_accumulate_witness :
  Notetags.rejection
    ("<Augment Rejection String: No.>" +:+
     String "010" "<Augment Rejection String: Never.>") None =
    (default "" None +:+ "No.") +:+ "Never.".
Proof.
  apply (rejection_strings_accumulate "010" "<Augment Rejection String: No.>"
           "<Augment Rejection String: Never.>" "No." "Never." None); reflexivity.
Defined.
